(** * go-fake-useragent: a shallow embedding of the version pipeline and the
      header builders, with the properties of its specification.

    Source files embedded here:
    - [useragent/useragent.go]: disk cache, fetchers, approximation,
      acquisition, [Get], [GetHeaders] (the header synthesiser sits in the
      same file);
    - [useragent/bots.go]: crawler headers;
    - [cmd/c-wrapper/main.go]: the exported [GetCrawlerHeaders].

    Conventions.  Go strings are byte strings ([string] of [ascii]); Go [int]
    values are [Z]; [float64] is IEEE 754 binary64 as given by the Standard
    Library's [SpecFloat] with [prec = 53] and [emax = 1024] (every operation
    rounded on its own, to nearest even); header maps are [gmap string string];
    results of the Go standard library that depend on the outside world (the
    clock, the random source, the file system, HTTP, the JSON codec, the URL
    parser, the regular-expression engine) are inputs of the embedded
    functions. *)

From Stdlib Require Import ZArith Lia Bool Ascii String List.
From Stdlib Require Import DecimalString DecimalZ DecimalPos.
From Stdlib Require Import Floats.SpecFloat.
From Stdlib Require Import Sorting.Sorted Sorting.Permutation.
From stdpp Require Import base option list gmap strings.

Local Open Scope string_scope.
Local Open Scope Z_scope.

(* ===================================================================== *)
(** * Strings and [fmt] *)
(* ===================================================================== *)

Module Str.

(** [strconv.Itoa] and the verb [%d]: decimal digits, a leading [-] for a
    negative number. *)
Definition itoa (z : Z) : string := NilZero.string_of_int (Z.to_int z).

Definition is_digit (c : ascii) : bool :=
  let n := nat_of_ascii c in (48 <=? n)%nat && (n <=? 57)%nat.

Fixpoint all_digits (s : string) : bool :=
  match s with
  | EmptyString => true
  | String c r => is_digit c && all_digits r
  end.

(** a non-empty run of decimal digits *)
Definition is_uint (s : string) : bool :=
  match s with
  | EmptyString => false
  | _ => all_digits s
  end.

(** a decimal integer as [%d] prints it: digits, after an optional [-] *)
Definition is_int (s : string) : bool :=
  match s with
  | String c r => if Ascii.eqb c "-" then is_uint r else is_uint s
  | EmptyString => false
  end.

(** [strings.Split(s, ".")] *)
Fixpoint split_dot_aux (s : string) (cur : string -> string) : list string :=
  match s with
  | EmptyString => [cur EmptyString]
  | String c r =>
      if Ascii.eqb c "."
      then cur EmptyString :: split_dot_aux r (fun x => x)
      else split_dot_aux r (fun x => cur (String c x))
  end.

Definition split_dot (s : string) : list string := split_dot_aux s (fun x => x).

Fixpoint no_dot (s : string) : bool :=
  match s with
  | EmptyString => true
  | String c r => negb (Ascii.eqb c ".") && no_dot r
  end.

(** [strings.Join] *)
Fixpoint join (sep : string) (l : list string) : string :=
  match l with
  | [] => ""
  | [x] => x
  | x :: r => x ++ sep ++ join sep r
  end.

(** [strings.HasPrefix] is [String.prefix]; [strings.HasSuffix]: *)
Fixpoint has_suffix (suf s : string) : bool :=
  if String.eqb suf s then true
  else match s with
       | EmptyString => false
       | String _ r => has_suffix suf r
       end.

(** [strings.TrimPrefix] *)
Definition trim_prefix (s pre : string) : string :=
  if String.prefix pre s
  then String.substring (String.length pre) (String.length s - String.length pre) s
  else s.

(** [strings.TrimSuffix] *)
Definition trim_suffix (s suf : string) : string :=
  if has_suffix suf s
  then String.substring 0 (String.length s - String.length suf) s
  else s.

(** [strings.Contains] *)
Fixpoint contains (s sub : string) : bool :=
  if String.prefix sub s then true
  else match s with
       | EmptyString => false
       | String _ r => contains r sub
       end.

End Str.

Module Fmt.

(** The operands this program passes to [fmt.Sprintf]. *)
Inductive arg :=
| AStr (s : string)
| AInt (z : Z)
| AStrs (l : list string).

(** [%s]: a string as it is, a slice of strings as its elements between
    brackets, separated by one space. *)
Definition verb_s (a : arg) : string :=
  match a with
  | AStr s => s
  | AStrs l => "[" ++ Str.join " " l ++ "]"
  | AInt z => "%!s(int=" ++ Str.itoa z ++ ")"
  end.

(** [%d]: an integer in decimal. *)
Definition verb_d (a : arg) : string :=
  match a with
  | AInt z => Str.itoa z
  | AStr s => "%!d(string=" ++ s ++ ")"
  | AStrs l => "[" ++ Str.join " " (map (fun s => "%!d(string=" ++ s ++ ")") l) ++ "]"
  end.

(** [fmt.Sprintf] for formats made of literal text, [%s] and [%d]. *)
Fixpoint Sprintf (format : string) (args : list arg) : string :=
  match format with
  | EmptyString => ""
  | String "%" (String "s" r) =>
      match args with
      | a :: args' => verb_s a ++ Sprintf r args'
      | [] => "%!s(MISSING)" ++ Sprintf r []
      end
  | String "%" (String "d" r) =>
      match args with
      | a :: args' => verb_d a ++ Sprintf r args'
      | [] => "%!d(MISSING)" ++ Sprintf r []
      end
  | String c r => String c (Sprintf r args)
  end.

End Fmt.

(* ===================================================================== *)
(** * [float64] *)
(* ===================================================================== *)

Module F64.

Definition prec : Z := 53.
Definition emax : Z := 1024.

Definition add := SFadd prec emax.
Definition sub := SFsub prec emax.
Definition mul := SFmul prec emax.
Definition div := SFdiv prec emax.

(** the conversion [float64(n)] of an integer *)
Definition of_Z (z : Z) : spec_float := binary_normalize prec emax z 0 false.

(** A decimal constant [n / d] of the source text: the compiler rounds the
    exact value once, which is what the correctly rounded quotient of two
    exactly representable integers is. *)
Definition of_ratio (n d : Z) : spec_float := div (of_Z n) (of_Z d).

Definition minInt64 : Z := - 2 ^ 63.
Definition maxInt64 : Z := 2 ^ 63 - 1.

(** The conversion [int(f)]: the fraction is discarded (truncation towards
    zero).  A value that does not fit, an infinity or a NaN gives what the
    amd64 conversion instruction gives, the smallest [int64]. *)
Definition to_int (f : spec_float) : Z :=
  match f with
  | S754_zero _ => 0
  | S754_finite s m e =>
      let a := if 0 <=? e then Zpos m * 2 ^ e else Zpos m / 2 ^ (- e) in
      let v := if s then - a else a in
      if (minInt64 <=? v) && (v <=? maxInt64) then v else minInt64
  | _ => minInt64
  end.

(** [math.Round]: the nearest integer, halves away from zero; zeros,
    infinities and NaN are returned unchanged. *)
Definition Round (f : spec_float) : spec_float :=
  match f with
  | S754_finite s m e =>
      if 0 <=? e then f
      else
        let d := 2 ^ (- e) in
        let q := Zpos m / d in
        let r := Zpos m mod d in
        match (if d <=? 2 * r then q + 1 else q) with
        | Zpos p => binary_round prec emax s p 0
        | _ => S754_zero s
        end
  | _ => f
  end.

(** neither negative nor NaN (a zero of either sign counts) *)
Definition nonneg (f : spec_float) : bool :=
  match f with
  | S754_zero _ => true
  | S754_infinity s => negb s
  | S754_finite s _ _ => negb s
  | S754_nan => false
  end.

(** one more unit when something was cut off *)
Definition slack (l : location) : Z :=
  match l with
  | loc_Exact => 0
  | loc_Inexact _ => 1
  end.

(** zero or finite with the sign [s], of magnitude at most [N], on a grid
    at least as fine as the integers *)
Definition within (s : bool) (N : Z) (f : spec_float) : Prop :=
  match f with
  | S754_zero s' => s' = s
  | S754_finite s' m e => s' = s /\ e <= 0 /\ Zpos m <= N * 2 ^ (- e)
  | _ => False
  end.

(** zero or finite, of magnitude at most [N] *)
Definition mag (N : Z) (f : spec_float) : Prop :=
  match f with
  | S754_zero _ => True
  | S754_finite _ m e => e <= 0 /\ Zpos m <= N * 2 ^ (- e)
  | _ => False
  end.

End F64.

(* ===================================================================== *)
(** * [time] *)
(* ===================================================================== *)

Module Time.

(** An instant, in nanoseconds since the Unix epoch. *)
Record t := mk { unixNano : Z }.

(** [time.Duration]: nanoseconds in an [int64]. *)
Definition Duration := Z.

Definition Nanosecond : Duration := 1.
Definition Second : Duration := 1000000000.
Definition Hour : Duration := 3600 * Second.

Definition minDuration : Duration := - 2 ^ 63.
Definition maxDuration : Duration := 2 ^ 63 - 1.

(** [t.Sub(u)]: the difference, or the smallest or largest [Duration] when
    the difference does not fit. *)
Definition Sub (a b : t) : Duration :=
  let d := unixNano a - unixNano b in
  if d <? minDuration then minDuration
  else if maxDuration <? d then maxDuration
  else d.

(** [d.Hours()] *)
Definition Hours (d : Duration) : spec_float :=
  let hour := Z.quot d Hour in
  let nsec := Z.rem d Hour in
  F64.add (F64.of_Z hour) (F64.div (F64.of_Z nsec) (F64.of_Z (60 * 60 * 1000000000))).

(** [t.After(u)], [t.Before(u)], [t.Equal(u)] *)
Definition After (a b : t) : bool := unixNano b <? unixNano a.
Definition Before (a b : t) : bool := unixNano a <? unixNano b.

Definition isLeap (year : Z) : bool :=
  (year mod 4 =? 0) && (negb (year mod 100 =? 0) || (year mod 400 =? 0)).

(** days before the first day of each month of a common year *)
Definition daysBefore (m : Z) : Z :=
  nth (Z.to_nat m) [0; 31; 59; 90; 120; 151; 181; 212; 243; 273; 304; 334; 365] 0.

(** days from 1 January 1970 to 1 January of [year] *)
Definition daysSinceEpoch (year : Z) : Z :=
  let y := year - 1 in
  365 * (year - 1970) + (y / 4 - y / 100 + y / 400) - 477.

(** [time.Date(year, month, day, hour, min, sec, nsec, time.UTC)]: values
    out of their usual range carry over, as in Go. *)
Definition Date (year month day hour min sec nsec : Z) : t :=
  let m := month - 1 in
  let year := year + m / 12 in
  let m := m mod 12 in
  let d := daysSinceEpoch year + daysBefore m
           + (if isLeap year && (2 <=? m) then 1 else 0) + (day - 1) in
  mk ((d * 86400 + hour * 3600 + min * 60 + sec) * Second + nsec).

(** days in a month (1..12) of a year *)
Definition daysIn (month year : Z) : Z :=
  if (month =? 2) && isLeap year then 29
  else daysBefore month - daysBefore (month - 1).

(** [t.AddDate(0, 0, days)] for a time in UTC, where every calendar day
    lasts 86400 seconds. *)
Definition AddDays_UTC (a : t) (days : Z) : t :=
  mk (unixNano a + days * 86400 * Second).

End Time.

(* ===================================================================== *)
(** * The approximator ([useragent.go], [approximateVersionForDate]) *)
(* ===================================================================== *)

(** [knownBuild], the map literal of [approximateVersionForDate], with the
    keys in the order of the source. *)
Definition knownBuild : list (Z * Z) :=
  [(136, 7103); (137, 7151); (138, 7204); (139, 7258)].

(** a lookup [m[k]] with the comma-ok form *)
Fixpoint map_lookup (m : list (Z * Z)) (k : Z) : option Z :=
  match m with
  | [] => None
  | (k', v) :: r => if k =? k' then Some v else map_lookup r k
  end.

Definition t0 : Time.t := Time.Date 2025 5 14 0 0 0 0.

(** days since [t0], as [d.Sub(t0).Hours() / 24] *)
Definition days_since_t0 (d : Time.t) : spec_float :=
  F64.div (Time.Hours (Time.Sub d t0)) (F64.of_Z 24).

Definition approx_M (t : spec_float) : spec_float :=
  F64.add (F64.of_Z 136) (F64.div t (F64.of_Z 31)).

Definition approx_B (M : spec_float) : spec_float :=
  match map_lookup knownBuild (F64.to_int M) with
  | Some build => F64.of_Z build
  | None => F64.add (F64.of_Z 7103) (F64.mul (F64.of_Z 52) (F64.sub M (F64.of_Z 136)))
  end.

Definition approx_p (t : spec_float) : spec_float :=
  F64.Round (F64.add (F64.mul (F64.of_ratio 88 100) t) (F64.of_ratio 6255 100)).

Definition approximateVersionForDate (d : Time.t) : string :=
  let t := days_since_t0 d in
  let M := approx_M t in
  let B := approx_B M in
  let p := approx_p t in
  Fmt.Sprintf "%d.0.%d.%d"
    [Fmt.AInt (F64.to_int M); Fmt.AInt (F64.to_int B); Fmt.AInt (F64.to_int p)].

(** A version as the specification wants it: four non-negative decimal
    integers joined by dots. *)
Definition valid_version (s : string) : bool :=
  match Str.split_dot s with
  | [a; b; c; d] => Str.is_uint a && Str.is_uint b && Str.is_uint c && Str.is_uint d
  | _ => false
  end.

(** The same shape with a sign allowed in front of each component. *)
Definition signed_version (s : string) : bool :=
  match Str.split_dot s with
  | [a; b; c; d] => Str.is_int a && Str.is_int b && Str.is_int c && Str.is_int d
  | _ => false
  end.

(* ===================================================================== *)
(** * The random source and panics *)
(* ===================================================================== *)

Module Rand.

(** The raw draws still to come from [math/rand/v2]. *)
Definition source := nat -> nat.

Definition tail (r : source) : source := fun k => r (S k).

(** A computation that draws random numbers and may panic ([None]). *)
Definition M (A : Type) : Type := source -> option (A * source).

Definition ret {A} (a : A) : M A := fun r => Some (a, r).

Definition bind {A B} (c : M A) (k : A -> M B) : M B :=
  fun r => match c r with
           | Some (a, r') => k a r'
           | None => None
           end.

Definition panic {A} : M A := fun _ => None.

(** an indexing expression [l[i]], which panics out of range *)
Definition index {A} (l : list A) (i : nat) : M A :=
  match nth_error l i with
  | Some a => ret a
  | None => panic
  end.

(** [rand.IntN(n)]: a number in [[0, n)]; it panics when [n <= 0]. *)
Definition IntN (n : nat) : M nat :=
  fun r => match n with
           | O => None
           | _ => Some (Nat.modulo (r O) n, tail r)
           end.

End Rand.

Notation "'do' x <- c ; k" := (Rand.bind c (fun x => k))
  (at level 10, x pattern, c at level 100, k at level 200).

(* ===================================================================== *)
(** * The generator ([useragent.go]) *)
(* ===================================================================== *)

Definition versionsToKeepFromGoogle : Z := 45.
Definition versionsToKeepFromMS : Z := 20.

Definition chromeUATemplate : string :=
  "Mozilla/5.0 (Windows NT 10.0; Win64; x64) AppleWebKit/537.36 (KHTML, like Gecko) Chrome/%s Safari/537.36".
Definition edgeUATemplate : string :=
  "Mozilla/5.0 (Windows NT 10.0; Win64; x64) AppleWebKit/537.36 (KHTML, like Gecko) Chrome/%s Safari/537.36 Edg/%s".

(** The fields of [Generator] that hold data; the lock, the HTTP client and
    the logger carry no value of their own here. *)
Record Generator := mkGenerator {
  versions : list string;
  diskCachePath : string;
  diskCacheTTL : Time.Duration
}.

Definition set_versions (g : Generator) (vs : list string) : Generator :=
  {| versions := vs; diskCachePath := diskCachePath g; diskCacheTTL := diskCacheTTL g |}.

(** Go's [error]: [None] is [nil]. *)
Definition error := option string.

Section Clock.

(** [t.AddDate(years, months, days)] in the zone of the process. *)
Variable AddDate : Time.t -> Z -> Z -> Z -> Time.t.

(** The loop of [approximateVersions], from index [i] on; [now k] is what the
    [k]-th call of [time.Now()] returns. *)
Fixpoint approximateVersions_loop (fuel : nat) (i : Z) (now : nat -> Time.t)
    (versions : list string) : list string :=
  match fuel with
  | O => versions
  | S fuel' =>
      if i <? 5 then
        let d := AddDate (now (Z.to_nat i)) 0 0 (- i * 7) in
        approximateVersions_loop fuel' (i + 1) now
          (versions ++ [approximateVersionForDate d])
      else versions
  end.

Definition approximateVersions (now : nat -> Time.t) : list string :=
  approximateVersions_loop 6 0 now [].

(** [Get] *)
Definition Get (g : Generator) (now : nat -> Time.t) : Rand.M string :=
  if (length (versions g) =? 0)%nat then
    Rand.ret (Fmt.Sprintf chromeUATemplate [Fmt.AStrs (approximateVersions now)])
  else
    do i <- Rand.IntN (length (versions g));
    do randomVersion <- Rand.index (versions g) i;
    do coin <- Rand.IntN 2;
    if (coin =? 0)%nat then
      Rand.ret (Fmt.Sprintf chromeUATemplate [Fmt.AStr randomVersion])
    else
      Rand.ret (Fmt.Sprintf edgeUATemplate [Fmt.AStr randomVersion; Fmt.AStr randomVersion]).

(** Which case of the final [select] of [updateVersions] fires.  The two
    fetchers and the deadline run concurrently; what the function does next
    depends only on the case taken. *)
Inductive select_case :=
| recvResult (versions : list string)  (* [case versions := <-resultsChan] *)
| recvAllNetworkDone                   (* [case <-allNetworkDone] *)
| recvCtxDone.                         (* [case <-ctx.Done()] *)

(** [updateVersions] *)
Definition updateVersions (g : Generator) (sel : select_case) (now : nat -> Time.t)
  : Generator * error :=
  match sel with
  | recvResult versions => (set_versions g versions, None)
  | recvAllNetworkDone => (set_versions g (approximateVersions now), None)
  | recvCtxDone => (set_versions g (approximateVersions now), None)
  end.

(** [GetVersions] *)
Definition GetVersions (g : Generator) : list string := versions g.

(* --------------------------------------------------------------------- *)
(** ** The race of [updateVersions]

    Two goroutines fetch, a third closes [allNetworkDone] once both have
    ended, the context expires at the deadline, and the caller waits in its
    [select].  The steps below are the moves of these parties. *)
(* --------------------------------------------------------------------- *)

(** what a fetcher returns when it ends *)
Inductive fetch_outcome :=
| FetchOk (versions : list string)
| FetchErr.

Record race := mkRace {
  googleRunning : bool;                (* the first goroutine has not ended *)
  microsoftRunning : bool;             (* the second goroutine has not ended *)
  resultsChan : list (list string);    (* the buffer of the channel, capacity 2 *)
  allNetworkDone : bool;               (* the channel is closed *)
  ctxDone : bool                       (* [ctx.Done()] is closed *)
}.

Definition race_start : race := mkRace true true [] false false.

(** the ways a fetcher goroutine can end: with an error; with a result that
    it puts on the channel; or with a result that it drops because the
    context is done *)
Inductive goroutine_end (out : fetch_outcome) (chan : list (list string)) (done : bool)
  : list (list string) -> Prop :=
| end_error : out = FetchErr -> goroutine_end out chan done chan
| end_send vs : out = FetchOk vs -> goroutine_end out chan done (chan ++ [vs])
| end_drop vs : out = FetchOk vs -> done = true -> goroutine_end out chan done chan.

Inductive race_step (google microsoft : fetch_outcome) : race -> race -> Prop :=
| step_google st chan :
    googleRunning st = true ->
    goroutine_end google (resultsChan st) (ctxDone st) chan ->
    race_step google microsoft st
      (mkRace false (microsoftRunning st) chan (allNetworkDone st) (ctxDone st))
| step_microsoft st chan :
    microsoftRunning st = true ->
    goroutine_end microsoft (resultsChan st) (ctxDone st) chan ->
    race_step google microsoft st
      (mkRace (googleRunning st) false chan (allNetworkDone st) (ctxDone st))
| step_wait st :
    googleRunning st = false -> microsoftRunning st = false ->
    race_step google microsoft st
      (mkRace false false (resultsChan st) true (ctxDone st))
| step_deadline st :
    race_step google microsoft st
      (mkRace (googleRunning st) (microsoftRunning st) (resultsChan st)
              (allNetworkDone st) true).

(** the states the race can be in *)
Inductive race_reach (google microsoft : fetch_outcome) : race -> Prop :=
| reach_start : race_reach google microsoft race_start
| reach_step st st' :
    race_reach google microsoft st -> race_step google microsoft st st' ->
    race_reach google microsoft st'.

(** the cases of the caller's [select] that can fire in a state *)
Inductive select_ready (st : race) : select_case -> Prop :=
| ready_result vs rest : resultsChan st = vs :: rest -> select_ready st (recvResult vs)
| ready_all : allNetworkDone st = true -> select_ready st recvAllNetworkDone
| ready_ctx : ctxDone st = true -> select_ready st recvCtxDone.

(** a call of [updateVersions] with these fetchers: the race reaches a state
    in which a case of the [select] fires *)
Inductive updateVersions_run (google microsoft : fetch_outcome) (g : Generator)
    (now : nat -> Time.t) : Generator * error -> Prop :=
| run_select st sel :
    race_reach google microsoft st -> select_ready st sel ->
    updateVersions_run google microsoft g now (updateVersions g sel now).

(* --------------------------------------------------------------------- *)
(** ** Crawler headers ([bots.go]) *)
(* --------------------------------------------------------------------- *)

(** [CrawlerType] is an [int]; the three named values: *)
Definition CrawlerType := Z.
Definition GoogleBot : CrawlerType := 0.
Definition BingBot : CrawlerType := 1.
Definition YandexBot : CrawlerType := 2.

Definition googleBotUATemplate : string :=
  "Mozilla/5.0 AppleWebKit/537.36 (KHTML, like Gecko; compatible; Googlebot/2.1; +http://www.google.com/bot.html) Chrome/%s Safari/537.36".
Definition bingBotUATemplate : string :=
  "Mozilla/5.0 AppleWebKit/537.36 (KHTML, like Gecko; compatible; bingbot/2.0; +http://www.bing.com/bingbot.htm) Chrome/%s Safari/537.36".
Definition yandexBotUA : string :=
  "Mozilla/5.0 (compatible; YandexBot/3.0; +http://yandex.com/bots)".

Definition getCrawlerHeadersWithVersion (crawlerType : CrawlerType)
    (chromeVersion : string) : gmap string string :=
  let headers : gmap string string :=
    <["accept-language" := "en-US,en;q=0.9"]>
    (<["accept-encoding" := "gzip, deflate, br"]>
    (<["accept" := "text/html,application/xhtml+xml,application/xml;q=0.9,*/*;q=0.8"]> ∅)) in
  let defaultBotUserAgent := Fmt.Sprintf googleBotUATemplate [Fmt.AStr chromeVersion] in
  let '(userAgent, headers) :=
    if crawlerType =? GoogleBot then
      (defaultBotUserAgent, <["from" := "googlebot(at)google.com"]> headers)
    else if crawlerType =? BingBot then
      (Fmt.Sprintf bingBotUATemplate [Fmt.AStr chromeVersion], headers)
    else if crawlerType =? YandexBot then
      (yandexBotUA, headers)
    else
      (defaultBotUserAgent, <["from" := "googlebot(at)google.com"]> headers) in
  <["user-agent" := userAgent]> headers.

(** [GetCrawlerHeaders]; [now] is the reading of [time.Now()]. *)
Definition GetCrawlerHeaders (g : Generator) (now : Time.t)
    (crawlerType : CrawlerType) : gmap string string :=
  match versions g with
  | [] =>
      let latestVersion := approximateVersionForDate now in
      getCrawlerHeadersWithVersion crawlerType latestVersion
  | latestVersion :: _ =>
      getCrawlerHeadersWithVersion crawlerType latestVersion
  end.

End Clock.

(** the version that [GetCrawlerHeaders] hands to the template *)
Definition latest_version (g : Generator) (now : Time.t) : string :=
  match versions g with
  | [] => approximateVersionForDate now
  | v :: _ => v
  end.

(* ===================================================================== *)
(** * The header synthesiser ([useragent.go], second part) *)
(* ===================================================================== *)

(** the double quote, and a string between double quotes *)
Definition dq : string := String "034"%char EmptyString.
Definition quoted (s : string) : string := dq ++ s ++ dq.

Module Re.

(** the longest prefix whose bytes satisfy [p], and what follows it *)
Fixpoint span (p : ascii -> bool) (s : string) : string * string :=
  match s with
  | EmptyString => (EmptyString, EmptyString)
  | String c r =>
      if p c then let '(a, b) := span p r in (String c a, b)
      else (EmptyString, s)
  end.

(** [s] without the prefix [pre], when it starts with it *)
Fixpoint drop_prefix (pre s : string) : option string :=
  match pre, s with
  | EmptyString, _ => Some s
  | String a pre', String b s' => if Ascii.eqb a b then drop_prefix pre' s' else None
  | String _ _, EmptyString => None
  end.

(** a non-empty run of digits, [\d+], and what follows it *)
Definition digits1 (s : string) : option (string * string) :=
  let '(ds, r) := span Str.is_digit s in
  match ds with
  | EmptyString => None
  | _ => Some (ds, r)
  end.

(** the leftmost position of [s] where the matcher [m] succeeds *)
Fixpoint find_first {A} (m : string -> option A) (s : string) : option A :=
  match m s with
  | Some a => Some a
  | None =>
      match s with
      | EmptyString => None
      | String _ r => find_first m r
      end
  end.

(** [uaMajorVersionRegex], [Chrome/(\d+)]: the group of the leftmost match *)
Definition major_here (s : string) : option string :=
  match drop_prefix "Chrome/" s with
  | Some r => option_map fst (digits1 r)
  | None => None
  end.
Definition uaMajorVersionRegex : string -> option string := find_first major_here.

(** [uaFullVersionRegex], [Chrome/(\d+\.\d+\.\d+\.\d+)] *)
Definition full_here (s : string) : option string :=
  match drop_prefix "Chrome/" s with
  | None => None
  | Some r0 =>
    match digits1 r0 with
    | None => None
    | Some (a, r1) =>
      match drop_prefix "." r1 with
      | None => None
      | Some r2 =>
        match digits1 r2 with
        | None => None
        | Some (b, r3) =>
          match drop_prefix "." r3 with
          | None => None
          | Some r4 =>
            match digits1 r4 with
            | None => None
            | Some (c, r5) =>
              match drop_prefix "." r5 with
              | None => None
              | Some r6 =>
                match digits1 r6 with
                | None => None
                | Some (d, _) => Some (a ++ "." ++ b ++ "." ++ c ++ "." ++ d)
                end
              end
            end
          end
        end
      end
    end
  end.
Definition uaFullVersionRegex : string -> option string := find_first full_here.

(** [uaPlatformRegex], [\(([^;]+)] *)
Definition platform_here (s : string) : option string :=
  match drop_prefix "(" s with
  | None => None
  | Some r =>
      match fst (span (fun c => negb (Ascii.eqb c ";")) r) with
      | EmptyString => None
      | a => Some a
      end
  end.
Definition uaPlatformRegex : string -> option string := find_first platform_here.

End Re.

(** white space of [strings.Fields] among the ASCII bytes *)
Definition is_space (c : ascii) : bool :=
  let n := nat_of_ascii c in
  ((9 <=? n)%nat && (n <=? 13)%nat) || (n =? 32)%nat.

(** [strings.Fields(s)[0]]; [None] when there is no field and the indexing
    panics. *)
Definition first_field (s : string) : option string :=
  let '(_, r) := Re.span is_space s in
  match fst (Re.span (fun c => negb (is_space c)) r) with
  | EmptyString => None
  | f => Some f
  end.

Definition to_lower (c : ascii) : ascii :=
  let n := nat_of_ascii c in
  if (65 <=? n)%nat && (n <=? 90)%nat then ascii_of_nat (n + 32) else c.

Fixpoint lower (s : string) : string :=
  match s with
  | EmptyString => EmptyString
  | String c r => String (to_lower c) (lower r)
  end.

(** [strings.EqualFold] on ASCII text *)
Definition EqualFold (a b : string) : bool := String.eqb (lower a) (lower b).

Record browserInfo := mkBrowserInfo {
  UserAgent : string;
  MajorVersion : string;
  FullVersion : string;
  Platform : string;
  BrandName : string;
  SecBrandName : string
}.

(** [parseUserAgent]; [None] when [strings.Fields(match[1])[0]] panics. *)
Definition parseUserAgent (ua : string) : option browserInfo :=
  let major := match Re.uaMajorVersionRegex ua with Some m => m | None => "" end in
  let full := match Re.uaFullVersionRegex ua with Some f => f | None => major end in
  let platform :=
    match Re.uaPlatformRegex ua with
    | Some m =>
        match first_field m with
        | Some platformStr =>
            Some (if EqualFold platformStr "windows" then "Windows" else "Linux")
        | None => None
        end
    | None => Some "Windows"
    end in
  let brand := if Str.contains ua "Edg/" then "Microsoft Edge" else "Google Chrome" in
  match platform with
  | Some p => Some (mkBrowserInfo ua major full p brand brand)
  | None => None
  end.

(** [greaseChars]: blank ; ; : / ? ? = = ( ) _ _ - , . and the double quote *)
Definition greaseChars : string := " ;;:/??==()__-,." ++ dq.

Definition greaseVersions : list string := ["8"; "24"; "99"; "99"; "99"; "99"].

(** an indexing expression [s[i]] on a string *)
Definition byte_at (s : string) (i : nat) : Rand.M ascii :=
  match String.get i s with
  | Some c => Rand.ret c
  | None => Rand.panic
  end.

(** the loop of [generateGreaseBrand] over the characters of [baseBrand] *)
Fixpoint grease_loop (baseBrand : string) (sb : string) : Rand.M string :=
  match baseBrand with
  | EmptyString => Rand.ret sb
  | String char rest =>
      if Ascii.eqb char " " then
        do i <- Rand.IntN (String.length greaseChars);
        do c <- byte_at greaseChars i;
        grease_loop rest (sb ++ String c EmptyString)
      else grease_loop rest (sb ++ String char EmptyString)
  end.

(** [generateGreaseBrand] *)
Definition generateGreaseBrand : Rand.M (string * string) :=
  do i <- Rand.IntN (length greaseVersions);
  do version <- Rand.index greaseVersions i;
  do brand <- grease_loop "Not A Brand" "";
  Rand.ret (brand, version).

Record screenResolution := mkRes { Width : Z; Height : Z }.

Definition commonResolutions : list screenResolution :=
  [mkRes 1920 1080; mkRes 1366 768; mkRes 1536 864;
   mkRes 1280 720; mkRes 1440 900; mkRes 2560 1440].

Definition viewportHeightSubtractions : list Z := [90; 128; 150; 188].
Definition viewportWidthSubtractions : list Z := [2; 4; 64; 128].

(** The two fields of [url.URL] that the program reads. *)
Record URL := mkURL { Scheme : string; Host : string }.

Definition lift {A} (o : option A) : Rand.M A :=
  match o with
  | Some a => Rand.ret a
  | None => Rand.panic
  end.

Definition secChUaFormat : string :=
  dq ++ "%s" ++ dq ++ ";v=" ++ dq ++ "%s" ++ dq ++ ", "
  ++ dq ++ "Chromium" ++ dq ++ ";v=" ++ dq ++ "%s" ++ dq ++ ", "
  ++ dq ++ "%s" ++ dq ++ ";v=" ++ dq ++ "%s" ++ dq.

Definition quotedFormat : string := dq ++ "%s" ++ dq.

(** The map literal of [GetHeaders]. *)
Definition header_literal (ua referer secChUa : string) (info : browserInfo)
    (viewportHeight viewportWidth : string) : gmap string string :=
    <["priority" := "u=0, i"]>
    (<["upgrade-insecure-requests" := "1"]>
    (<["sec-fetch-user" := "?1"]>
    (<["sec-fetch-site" := "same-origin"]>
    (<["sec-fetch-mode" := "navigate"]>
    (<["sec-fetch-dest" := "document"]>
    (<["sec-ch-viewport-width" := Fmt.Sprintf quotedFormat [Fmt.AStr viewportWidth]]>
    (<["sec-ch-viewport-height" := Fmt.Sprintf quotedFormat [Fmt.AStr viewportHeight]]>
    (<["sec-ch-ua-model" := quoted ""]>
    (<["sec-ch-ua-platform-version" := quoted "19.0.0"]>
    (<["sec-ch-ua-form-factors" := quoted "Desktop"]>
    (<["sec-ch-ua-bitness" := quoted "64"]>
    (<["sec-ch-ua-arch" := quoted "x86"]>
    (<["sec-ch-ua-platform" := Fmt.Sprintf quotedFormat [Fmt.AStr (Platform info)]]>
    (<["sec-ch-ua-mobile" := "?0"]>
    (<["sec-ch-ua-full-version" := Fmt.Sprintf quotedFormat [Fmt.AStr (FullVersion info)]]>
    (<["sec-ch-ua" := secChUa]>
    (<["connection" := "keep-alive"]>
    (<["referer" := referer]>
    (<["accept-language" := "en-US,en;q=0.9"]>
    (<["accept" := "text/html,application/xhtml+xml,application/xml;q=0.9,image/avif,image/webp,image/apng,*/*;q=0.8,application/signed-exchange;v=b3;q=0.7"]>
    (<["user-agent" := ua]> ∅))))))))))))))))))))).

(** what both templates start with *)
Definition uaPrefix : string :=
  "Mozilla/5.0 (Windows NT 10.0; Win64; x64) AppleWebKit/537.36 (KHTML, like Gecko) Chrome/".

Section Headers.

Variable AddDate : Time.t -> Z -> Z -> Z -> Time.t.

(** [url.Parse]: [None] is the result [(nil, err)]. *)
Variable url_Parse : string -> option URL.

(** the outcome of [url.Parse(targetURL[0])], when there is a first
    argument and it is not empty; [None] otherwise, and on an error *)
Definition parse_target (targetURL : list string) : option URL :=
  match targetURL with
  | target :: _ => if String.eqb target "" then None else url_Parse target
  | [] => None
  end.

Definition fallbackURL : string := "https://www.google.com/search?q=".

(** [GetHeaders]; [targetURL] is the variadic parameter. *)
Definition GetHeaders (g : Generator) (now : nat -> Time.t) (targetURL : list string)
  : Rand.M (gmap string string) :=
  do ua <- Get AddDate g now;
  do info <- lift (parseUserAgent ua);
  let parsed : option URL := parse_target targetURL in
  let hasURL : bool := match parsed with Some _ => true | None => false end in
  (* a nil [u] makes [u.Scheme] panic *)
  do u <- lift (if hasURL then parsed else url_Parse fallbackURL);
  let referer := Fmt.Sprintf "%s://%s" [Fmt.AStr (Scheme u); Fmt.AStr (Host u)] in
  let origin := if hasURL then referer else "" in
  do gb <- generateGreaseBrand;
  let '(greaseBrand, greaseVersion) := gb in
  let secChUa :=
    Fmt.Sprintf secChUaFormat
      [Fmt.AStr greaseBrand; Fmt.AStr greaseVersion; Fmt.AStr (MajorVersion info);
       Fmt.AStr (SecBrandName info); Fmt.AStr (MajorVersion info)] in
  do ri <- Rand.IntN (length commonResolutions);
  do resolution <- Rand.index commonResolutions ri;
  do hi <- Rand.IntN (length viewportHeightSubtractions);
  do heightSubtraction <- Rand.index viewportHeightSubtractions hi;
  do wi <- Rand.IntN (length viewportWidthSubtractions);
  do widthSubtraction <- Rand.index viewportWidthSubtractions wi;
  let viewportHeight := Str.itoa (Height resolution - heightSubtraction) in
  let viewportWidth := Str.itoa (Width resolution - widthSubtraction) in
  let headers : gmap string string :=
    header_literal ua referer secChUa info viewportHeight viewportWidth in
  Rand.ret (if String.eqb origin "" then headers else <["origin" := origin]> headers).

(** the URL whose scheme and host [GetHeaders] prints *)
Definition url_in_use (targetURL : list string) : option URL :=
  match parse_target targetURL with
  | Some u => Some u
  | None => url_Parse fallbackURL
  end.

(** the map [GetHeaders] returns, from the values it has chosen *)
Definition headers_for (targetURL : list string) (ua secChUa : string) (info : browserInfo)
    (u : URL) (res : screenResolution) (hs ws : Z) : gmap string string :=
  let referer := Scheme u ++ "://" ++ Host u in
  let headers := header_literal ua referer secChUa info
                   (Str.itoa (Height res - hs)) (Str.itoa (Width res - ws)) in
  match parse_target targetURL with
  | Some _ => <["origin" := referer]> headers
  | None => headers
  end.

End Headers.

(** the integer written between double quotes in a header value *)
Definition header_int (v : string) : option Z :=
  match v with
  | String c r =>
      if Ascii.eqb c "034" then
        match String.length r with
        | O => None
        | S n =>
            if String.eqb (String.substring n 1 r) dq
            then option_map Z.of_int (NilZero.int_of_string (String.substring 0 n r))
            else None
        end
      else None
  | EmptyString => None
  end.

(* ===================================================================== *)
(** * The disk cache ([loadFromDiskCache], [saveToDiskCache]) *)
(* ===================================================================== *)

Record cacheFile := mkCacheFile {
  Timestamp : Time.t;
  Versions : list string
}.

(** The files of the disk: path to content. *)
Abbreviation FS := (gmap string string).

(** What the operating system answers to [saveToDiskCache]: the name
    [os.CreateTemp] picks, and which of the calls return an error. *)
Record save_io := mkSaveIO {
  tmpName : string;
  createTempErr : bool;
  writeErr : bool;
  closeErr : bool;
  renameErr : bool
}.

Section DiskCache.

(** [json.Unmarshal(data, &cache)] and [json.Marshal(cache)]; [None] is an
    error. *)
Variable json_Unmarshal : string -> option cacheFile.
Variable json_Marshal : cacheFile -> option string.

(** [time.Since(t)] with [now] the reading of the clock *)
Definition Since (now t : Time.t) : Time.Duration := Time.Sub now t.

(** [loadFromDiskCache]; [readErr] tells that [os.ReadFile] fails on a file
    that is there. *)
Definition loadFromDiskCache (g : Generator) (fs : FS) (readErr : bool) (now : Time.t)
  : Generator * bool :=
  match (if readErr then None else fs !! diskCachePath g) with
  | None => (g, false)
  | Some data =>
      match json_Unmarshal data with
      | None => (g, false)
      | Some cache =>
          if diskCacheTTL g <? Since now (Timestamp cache) then (g, false)
          else if (length (Versions cache) =? 0)%nat then (g, false)
          else (set_versions g (Versions cache), true)
      end
  end.

(** [saveToDiskCache]: the files after the call.  The deferred [os.Remove]
    runs on every path that follows a successful [os.CreateTemp]. *)
Definition saveToDiskCache (g : Generator) (fs : FS) (now : Time.t) (io : save_io) : FS :=
  let versionsToCache := versions g in
  if (length versionsToCache =? 0)%nat then fs
  else
    let cache := mkCacheFile now versionsToCache in
    match json_Marshal cache with
    | None => fs
    | Some data =>
        if createTempErr io then fs
        else
          let tmp := tmpName io in
          let fs1 : FS := <[tmp := ""]> fs in
          if writeErr io then delete tmp fs1
          else
            let fs2 : FS := <[tmp := data]> fs1 in
            if closeErr io then delete tmp fs2
            else if renameErr io then delete tmp fs2
            else
              let fs3 : FS := <[diskCachePath g := data]> (delete tmp fs2) in
              delete tmp fs3
    end.

End DiskCache.

(* --------------------------------------------------------------------- *)
(** ** What [encoding/json] does to a string: coercion to valid UTF-8 *)
(* --------------------------------------------------------------------- *)

Module Utf8.

Definition byte (c : ascii) : nat := nat_of_ascii c.
Definition between (lo hi : nat) (c : ascii) : bool :=
  (lo <=? byte c)%nat && (byte c <=? hi)%nat.
Definition cont : ascii -> bool := between 128 191.

(** the length in bytes of the encoding of one code point at the head of
    [s], or [None] when the head is not such an encoding *)
Definition rune_len (s : string) : option nat :=
  match s with
  | EmptyString => None
  | String b0 r0 =>
      if (byte b0 <? 128)%nat then Some 1%nat
      else
        match r0 with
        | EmptyString => None
        | String b1 r1 =>
            if between 194 223 b0 then (if cont b1 then Some 2%nat else None)
            else
              match r1 with
              | EmptyString => None
              | String b2 r2 =>
                  let three :=
                    (between 224 224 b0 && between 160 191 b1)
                    || (between 225 236 b0 && cont b1)
                    || (between 237 237 b0 && between 128 159 b1)
                    || (between 238 239 b0 && cont b1) in
                  if between 224 239 b0 then (if three && cont b2 then Some 3%nat else None)
                  else
                    match r2 with
                    | EmptyString => None
                    | String b3 _ =>
                        let four :=
                          (between 240 240 b0 && between 144 191 b1)
                          || (between 241 243 b0 && cont b1)
                          || (between 244 244 b0 && between 128 143 b1) in
                        if four && cont b2 && cont b3 then Some 4%nat else None
                    end
              end
        end
  end.

(** U+FFFD in UTF-8 *)
Definition replacement : string :=
  String "239"%char (String "191"%char (String "189"%char EmptyString)).

(** Every byte that does not start a well-formed encoding becomes U+FFFD;
    [fuel] bounds the number of code points. *)
Fixpoint coerce_fuel (fuel : nat) (s : string) : string :=
  match fuel with
  | O => EmptyString
  | S fuel' =>
      match s with
      | EmptyString => EmptyString
      | String b r =>
          match rune_len s with
          | Some n => String.substring 0 n s ++ coerce_fuel fuel' (String.substring n (String.length s - n) s)
          | None => replacement ++ coerce_fuel fuel' r
          end
      end
  end.

Definition coerce (s : string) : string := coerce_fuel (String.length s) s.

Definition valid (s : string) : bool := String.eqb (coerce s) s.

End Utf8.

(** A record as it comes back from the JSON text of [c]: the instant is
    kept, the strings are coerced to valid UTF-8. *)
Definition json_image (c : cacheFile) : cacheFile :=
  mkCacheFile (Timestamp c) (map Utf8.coerce (Versions c)).

(* ===================================================================== *)
(** * The directory-scrape fetcher ([fetchMicrosoftVersions]) *)
(* ===================================================================== *)

Record msEdgeRelease := mkRelease {
  Version : string;
  Date : Time.t
}.

(** What the HTTP exchange gives the fetcher. *)
Inductive http_outcome :=
| HttpFailed                      (* the request cannot be built or sent *)
| HttpResponse (StatusCode : Z)
               (body : option string)  (* [None]: [io.ReadAll] fails *)
               (bodyCloseErr : bool).  (* [resp.Body.Close()] fails *)

Definition StatusOK : Z := 200.

Definition msLayout : string := "02-Jan-2006 15:04".

(** the name of the version in a file name *)
Definition version_of_filename (filename : string) : string :=
  let version := Str.trim_prefix filename "microsoft-edge-stable_" in
  let version := Str.trim_suffix version "_amd64.deb" in
  Str.trim_suffix version "-1".

(** the comparison given to [sort.Slice] *)
Definition release_less (a b : msEdgeRelease) : bool := Time.After (Date a) (Date b).

(** the loop that removes duplicates, with the set [uniqueVersions] *)
Fixpoint dedup_loop (releases : list msEdgeRelease) (limit : nat)
    (versions : list string) (uniqueVersions : gset string) : list string :=
  match releases with
  | [] => versions
  | release :: rest =>
      let '(versions, uniqueVersions) :=
        if decide (Version release ∈ uniqueVersions) then (versions, uniqueVersions)
        else ((versions ++ [Version release])%list, {[Version release]} ∪ uniqueVersions) in
      if (limit <=? length versions)%nat then versions
      else dedup_loop rest limit versions uniqueVersions
  end.

Section Microsoft.

(** [msEdgeVersionRegex.FindAllStringSubmatch(body, -1)]: for each match the
    whole text and the three groups. *)
Variable FindAllStringSubmatch : string -> list (list string).

(** [time.Parse(layout, value)]; [None] is an error. *)
Variable time_Parse : string -> string -> option Time.t.

(** [sort.Slice] with the comparison [less], on releases. *)
Variable sort_Slice :
  (msEdgeRelease -> msEdgeRelease -> bool) -> list msEdgeRelease -> list msEdgeRelease.

(** the loop over the matches *)
Fixpoint parse_matches (matches : list (list string)) (releases : list msEdgeRelease)
  : list msEdgeRelease :=
  match matches with
  | [] => releases
  | m :: rest =>
      match m with
      | _ :: filename :: dateStr :: timeStr :: _ =>
          let fullDateTimeStr := Fmt.Sprintf "%s %s" [Fmt.AStr dateStr; Fmt.AStr timeStr] in
          match time_Parse msLayout fullDateTimeStr with
          | None => parse_matches rest releases
          | Some parsedTime =>
              parse_matches rest
                (releases ++ [mkRelease (version_of_filename filename) parsedTime])
          end
      | _ => parse_matches rest releases
      end
  end.

(** a release read from a match: the groups parse to its date and the file
    name gives its version *)
Definition from_match (matches : list (list string)) (r : msEdgeRelease) : Prop :=
  exists whole filename dateStr timeStr rest,
    In (whole :: filename :: dateStr :: timeStr :: rest) matches /\
    time_Parse msLayout (dateStr ++ " " ++ timeStr) = Some (Date r) /\
    Version r = version_of_filename filename.

(** no group of four of [matches] parses to a date *)
Definition none_parses (matches : list (list string)) : Prop :=
  forall whole filename dateStr timeStr rest,
    In (whole :: filename :: dateStr :: timeStr :: rest) matches ->
    time_Parse msLayout (dateStr ++ " " ++ timeStr) = None.

(** the body of [fetchMicrosoftVersions] once the response is read *)
Definition versions_of_body (body : string) : list string * error :=
  let matches := FindAllStringSubmatch body in
  if (length matches =? 0)%nat then ([], Some "no version found on the page")
  else
    let releases := parse_matches matches [] in
    if (length releases =? 0)%nat then ([], Some "no valid version parsed")
    else
      let releases := sort_Slice release_less releases in
      let limit := Nat.min (Z.to_nat versionsToKeepFromMS) (length releases) in
      (dedup_loop releases limit [] ∅, None).

(** [errors.Join(err, closeErr)] *)
Definition errors_Join (err : error) (closeFails : bool) : error :=
  match err, closeFails with
  | None, false => None
  | Some e, false => Some e
  | None, true => Some "close"
  | Some e, true => Some (e ++ "; close")
  end.

(** [fetchMicrosoftVersions] *)
Definition fetchMicrosoftVersions (resp : http_outcome) : list string * error :=
  match resp with
  | HttpFailed => ([], Some "HTTP request failed")
  | HttpResponse status body closeFails =>
      let '(vs, err) :=
        if negb (status =? StatusOK) then ([], Some "bad HTTP status")
        else
          match body with
          | None => ([], Some "cannot read the body")
          | Some b => versions_of_body b
          end in
      (vs, errors_Join err closeFails)
  end.

End Microsoft.

(* ===================================================================== *)
(** * The exported [GetCrawlerHeaders] ([cmd/c-wrapper/main.go]) *)
(* ===================================================================== *)

Module CWrapper.

Definition ErrSuccess : Z := 0.
Definition ErrNotInitialized : Z := -1.
Definition ErrJSONMarshal : Z := -2.
Definition ErrUnknownCrawler : Z := -3.
Definition ErrInitialization : Z := -4.

Definition maxCInt : Z := 2147483647.

(** [copyToBuffer]: the code returned, and the text written to the buffer
    when there is room for it. *)
Definition copyToBuffer (data : string) (length : Z) : Z * option string :=
  let requiredSize := Z.of_nat (String.length data) + 1 in
  if maxCInt <? requiredSize then (maxCInt, None)
  else if length <? requiredSize then (requiredSize, None)
  else (Z.of_nat (String.length data), Some data).

Section Wrapper.

(** [json.Marshal(headersMap)] *)
Variable json_Marshal_map : gmap string string -> option string.

(** The exported [GetCrawlerHeaders]: [globalGenerator] is [None] before
    [Initialize]; [length] is the size of the caller's buffer. *)
Definition GetCrawlerHeaders (globalGenerator : option Generator) (now : Time.t)
    (crawlerType : Z) (length : Z) : Z * option string :=
  match globalGenerator with
  | None => (ErrNotInitialized, None)
  | Some g =>
      if (crawlerType <? 0) || (2 <? crawlerType) then (ErrUnknownCrawler, None)
      else
        let headersMap := GetCrawlerHeaders g now crawlerType in
        match json_Marshal_map headersMap with
        | None => (ErrJSONMarshal, None)
        | Some jsonData => copyToBuffer jsonData length
        end
  end.

End Wrapper.

End CWrapper.

(* ===================================================================== *)
(** * Executable stand-ins for the Go library, for running the model *)
(* ===================================================================== *)

(** the civil date of a day number counted from 1 January 1970 *)
Definition civil_of_days (z : Z) : Z * Z * Z :=
  let z := z + 719468 in
  let era := z / 146097 in
  let doe := z - era * 146097 in
  let yoe := (doe - doe / 1460 + doe / 36524 - doe / 146096) / 365 in
  let doy := doe - (365 * yoe + yoe / 4 - yoe / 100) in
  let mp := (5 * doy + 2) / 153 in
  let d := doy - (153 * mp + 2) / 5 + 1 in
  let m := if mp <? 10 then mp + 3 else mp - 9 in
  let y := yoe + era * 400 + (if m <=? 2 then 1 else 0) in
  (y, m, d).

(** [t.AddDate(years, months, days)] for a time in UTC *)
Definition AddDate_UTC (t : Time.t) (years months days : Z) : Time.t :=
  let secs := Time.unixNano t / Time.Second in
  let nsec := Time.unixNano t mod Time.Second in
  let '(y, m, d) := civil_of_days (secs / 86400) in
  Time.Date (y + years) (m + months) (d + days) 0 0 (secs mod 86400) nsec.

Module UrlModel.

Definition is_ctl (c : ascii) : bool :=
  let n := nat_of_ascii c in (n <? 32)%nat || (n =? 127)%nat.

Fixpoint has_ctl (s : string) : bool :=
  match s with
  | EmptyString => false
  | String c r => is_ctl c || has_ctl r
  end.

Definition is_alpha (c : ascii) : bool :=
  let n := nat_of_ascii c in
  ((97 <=? n)%nat && (n <=? 122)%nat) || ((65 <=? n)%nat && (n <=? 90)%nat).

Definition is_scheme_extra (c : ascii) : bool :=
  Str.is_digit c || Ascii.eqb c "+" || Ascii.eqb c "-" || Ascii.eqb c ".".

(** [getScheme]: the scheme and the rest; [None] is the error
    "missing protocol scheme" *)
Fixpoint getScheme_from (rawURL s : string) (i : nat) (acc : string)
  : option (string * string) :=
  match s with
  | EmptyString => Some ("", rawURL)
  | String c r =>
      if is_alpha c then getScheme_from rawURL r (S i) (acc ++ String c "")
      else if is_scheme_extra c then
        match i with
        | O => Some ("", rawURL)
        | _ => getScheme_from rawURL r (S i) (acc ++ String c "")
        end
      else if Ascii.eqb c ":" then
        match i with
        | O => None
        | _ => Some (acc, r)
        end
      else Some ("", rawURL)
  end.

Definition getScheme (rawURL : string) : option (string * string) :=
  getScheme_from rawURL rawURL 0 "".

Definition cut (sep : ascii) (s : string) : string :=
  fst (Re.span (fun c => negb (Ascii.eqb c sep)) s).

Definition is_host_byte (c : ascii) : bool :=
  is_alpha c || Str.is_digit c || Ascii.eqb c "." || Ascii.eqb c "-" || Ascii.eqb c ":".

Fixpoint all_bytes (p : ascii -> bool) (s : string) : bool :=
  match s with
  | EmptyString => true
  | String c r => p c && all_bytes p r
  end.

(** A reading of [url.Parse] for plain URLs: a scheme, then after [//] a
    host made of letters, digits, dots, hyphens and colons, then path, query
    and fragment.  An authority with anything else is refused. *)
Definition Parse (rawURL : string) : option URL :=
  let u := cut "#" rawURL in
  if has_ctl u then None
  else
    match getScheme u with
    | None => None
    | Some (scheme, rest) =>
        let scheme := lower scheme in
        let rest := cut "?" rest in
        if negb (String.prefix "/" rest) then
          if negb (String.eqb scheme "") then Some (mkURL scheme "")
          else if Str.contains (cut "/" rest) ":" then None
          else Some (mkURL "" "")
        else if String.prefix "//" rest then
          let authority := cut "/" (String.substring 2 (String.length rest - 2) rest) in
          if all_bytes is_host_byte authority then Some (mkURL scheme authority) else None
        else Some (mkURL scheme "")
    end.

End UrlModel.

(** a generator, a clock and a random source to run the model on *)
Definition demo_generator : Generator :=
  mkGenerator ["140.0.7339.81"; "139.0.7258.155"] "/tmp/go_ua_versions.json" (3600 * Time.Second).
Definition demo_now (k : nat) : Time.t := Time.Date 2026 10 31 12 0 (Z.of_nat k) 0.
Definition demo_rand (k : nat) : nat := (7 * k + 3)%nat.

(** A JSON codec for the cache record, enough to run the cache: the encoder
    writes [{"timestamp":"...","versions":["...",...]}] with the instant in
    RFC 3339 (UTC) and the strings escaped as [encoding/json] escapes them;
    the decoder reads such texts back. *)
Module JsonModel.

Definition bs : string := String "092"%char EmptyString.   (* the backslash *)

Definition hex_digit (n : Z) : ascii :=
  match String.get (Z.to_nat n) "0123456789abcdef" with
  | Some c => c
  | None => "0"%char
  end.

Definition u_escape (n : Z) : string :=
  bs ++ "u"
  ++ String (hex_digit (n / 4096 mod 16))
       (String (hex_digit (n / 256 mod 16))
          (String (hex_digit (n / 16 mod 16))
             (String (hex_digit (n mod 16)) EmptyString))).

Definition escape_ascii (b : ascii) : string :=
  let n := nat_of_ascii b in
  if (n =? 34)%nat then bs ++ dq
  else if (n =? 92)%nat then bs ++ bs
  else if (n =? 8)%nat then bs ++ "b"
  else if (n =? 12)%nat then bs ++ "f"
  else if (n =? 10)%nat then bs ++ "n"
  else if (n =? 13)%nat then bs ++ "r"
  else if (n =? 9)%nat then bs ++ "t"
  else if (n <? 32)%nat || (n =? 60)%nat || (n =? 62)%nat || (n =? 38)%nat then u_escape (Z.of_nat n)
  else String b EmptyString.

Definition line_sep : string := String "226"%char (String "128"%char (String "168"%char EmptyString)).
Definition par_sep : string := String "226"%char (String "128"%char (String "169"%char EmptyString)).

Fixpoint escape_fuel (fuel : nat) (s : string) : string :=
  match fuel with
  | O => EmptyString
  | S fuel' =>
      match s with
      | EmptyString => EmptyString
      | String b r =>
          if (nat_of_ascii b <? 128)%nat then escape_ascii b ++ escape_fuel fuel' r
          else
            match Utf8.rune_len s with
            | None => u_escape 65533 ++ escape_fuel fuel' r
            | Some n =>
                let rune := String.substring 0 n s in
                let rest := String.substring n (String.length s - n) s in
                (if String.eqb rune line_sep then u_escape 8232
                 else if String.eqb rune par_sep then u_escape 8233
                 else rune) ++ escape_fuel fuel' rest
            end
      end
  end.

Definition quote (s : string) : string := dq ++ escape_fuel (String.length s) s ++ dq.

Definition pad (width : nat) (z : Z) : string :=
  let s := Str.itoa z in
  String.concat "" (repeat "0" (width - String.length s)) ++ s.

Fixpoint trim_zeros_rev (s : list ascii) : list ascii :=
  match s with
  | "0"%char :: r => trim_zeros_rev r
  | _ => s
  end.

Definition fraction (nsec : Z) : string :=
  if nsec =? 0 then ""
  else "." ++ string_of_list_ascii (rev (trim_zeros_rev (rev (list_ascii_of_string (pad 9 nsec))))).

(** the instant in RFC 3339 with nanoseconds, in UTC; [None] outside the
    years 0 to 9999 *)
Definition format_time (t : Time.t) : option string :=
  let secs := Time.unixNano t / Time.Second in
  let nsec := Time.unixNano t mod Time.Second in
  let '(y, m, d) := civil_of_days (secs / 86400) in
  let sod := secs mod 86400 in
  if (y <? 0) || (9999 <? y) then None
  else Some (pad 4 y ++ "-" ++ pad 2 m ++ "-" ++ pad 2 d ++ "T"
             ++ pad 2 (sod / 3600) ++ ":" ++ pad 2 (sod / 60 mod 60) ++ ":" ++ pad 2 (sod mod 60)
             ++ fraction nsec ++ "Z").

Definition Marshal (c : cacheFile) : option string :=
  match format_time (Timestamp c) with
  | None => None
  | Some ts =>
      Some ("{" ++ dq ++ "timestamp" ++ dq ++ ":" ++ dq ++ ts ++ dq ++ ","
            ++ dq ++ "versions" ++ dq ++ ":[" ++ String.concat "," (map quote (Versions c)) ++ "]}")
  end.

Definition hex_value (c : ascii) : option Z :=
  let n := Z.of_nat (nat_of_ascii c) in
  if (48 <=? n) && (n <=? 57) then Some (n - 48)
  else if (97 <=? n) && (n <=? 102) then Some (n - 87)
  else if (65 <=? n) && (n <=? 70) then Some (n - 55)
  else None.

Definition byte_of (z : Z) : ascii := ascii_of_N (Z.to_N z).

(** UTF-8 of a code point below 65536 *)
Definition utf8_encode (cp : Z) : string :=
  if cp <? 128 then String (byte_of cp) EmptyString
  else if cp <? 2048 then
    String (byte_of (192 + cp / 64)) (String (byte_of (128 + cp mod 64)) EmptyString)
  else
    String (byte_of (224 + cp / 4096))
      (String (byte_of (128 + cp / 64 mod 64))
         (String (byte_of (128 + cp mod 64)) EmptyString)).

(** the text of a JSON string from after its opening quote: the decoded
    bytes and what follows the closing quote *)
Fixpoint unquote (s : string) (acc : string) : option (string * string) :=
  match s with
  | EmptyString => None
  | String c r =>
      let n := nat_of_ascii c in
      if (n =? 34)%nat then Some (Utf8.coerce acc, r)
      else if (n <? 32)%nat then None
      else if (n =? 92)%nat then
        match r with
        | String e r1 =>
            let k := nat_of_ascii e in
            let simple (b : nat) := unquote r1 (acc ++ String (ascii_of_nat b) EmptyString) in
            if (k =? 34)%nat then simple 34%nat
            else if (k =? 92)%nat then simple 92%nat
            else if (k =? 47)%nat then simple 47%nat
            else if (k =? 98)%nat then simple 8%nat
            else if (k =? 102)%nat then simple 12%nat
            else if (k =? 110)%nat then simple 10%nat
            else if (k =? 114)%nat then simple 13%nat
            else if (k =? 116)%nat then simple 9%nat
            else if (k =? 117)%nat then
              match r1 with
              | String h1 (String h2 (String h3 (String h4 r2))) =>
                  match hex_value h1, hex_value h2, hex_value h3, hex_value h4 with
                  | Some a, Some b, Some c', Some d =>
                      let cp := a * 4096 + b * 256 + c' * 16 + d in
                      if (55296 <=? cp) && (cp <=? 57343) then None
                      else unquote r2 (acc ++ utf8_encode cp)
                  | _, _, _, _ => None
                  end
              | _ => None
              end
            else None
        | EmptyString => None
        end
      else unquote r (acc ++ String c EmptyString)
  end.

(** [width] decimal digits at the head of [s] *)
Fixpoint read_digits (width : nat) (s : string) (acc : Z) : option (Z * string) :=
  match width with
  | O => Some (acc, s)
  | S w =>
      match s with
      | String c r =>
          if Str.is_digit c then read_digits w r (10 * acc + Z.of_nat (nat_of_ascii c - 48))
          else None
      | EmptyString => None
      end
  end.

Definition expect (pre s : string) : option string := Re.drop_prefix pre s.

Definition parse_time (s : string) : option (Time.t * string) :=
  match read_digits 4 s 0 with
  | Some (y, s) =>
    match expect "-" s with
    | Some s =>
      match read_digits 2 s 0 with
      | Some (m, s) =>
        match expect "-" s with
        | Some s =>
          match read_digits 2 s 0 with
          | Some (d, s) =>
            match expect "T" s with
            | Some s =>
              match read_digits 2 s 0 with
              | Some (hh, s) =>
                match expect ":" s with
                | Some s =>
                  match read_digits 2 s 0 with
                  | Some (mi, s) =>
                    match expect ":" s with
                    | Some s =>
                      match read_digits 2 s 0 with
                      | Some (ss, s) =>
                          let '(nsec, s) :=
                            match expect "." s with
                            | Some s' =>
                                let '(ds, rest) := Re.span Str.is_digit s' in
                                match read_digits (String.length ds) ds 0 with
                                | Some (v, _) => (v * 10 ^ (9 - Z.of_nat (String.length ds)), rest)
                                | None => (0, s)
                                end
                            | None => (0, s)
                            end in
                          match expect "Z" s with
                          | Some s => Some (Time.Date y m d hh mi ss nsec, s)
                          | None => None
                          end
                      | None => None
                      end
                    | None => None
                    end
                  | None => None
                  end
                | None => None
                end
              | None => None
              end
            | None => None
            end
          | None => None
          end
        | None => None
        end
      | None => None
      end
    | None => None
    end
  | None => None
  end.

(** the strings of a JSON array from after its opening bracket *)
Fixpoint parse_strings (fuel : nat) (s : string) (acc : list string) : option (list string * string) :=
  match fuel with
  | O => None
  | S fuel' =>
      match expect dq s with
      | None => None
      | Some s1 =>
          match unquote s1 "" with
          | None => None
          | Some (v, s2) =>
              match expect "," s2 with
              | Some s3 => parse_strings fuel' s3 (acc ++ [v])
              | None =>
                  match expect "]" s2 with
                  | Some s3 => Some ((acc ++ [v])%list, s3)
                  | None => None
                  end
              end
          end
      end
  end.

Definition Unmarshal (data : string) : option cacheFile :=
  match expect ("{" ++ dq ++ "timestamp" ++ dq ++ ":" ++ dq) data with
  | None => None
  | Some s =>
      match parse_time s with
      | None => None
      | Some (ts, s) =>
          match expect (dq ++ "," ++ dq ++ "versions" ++ dq ++ ":[") s with
          | None => None
          | Some s =>
              match expect "]" s with
              | Some s' => if String.eqb s' "}" then Some (mkCacheFile ts []) else None
              | None =>
                  match parse_strings (String.length s) s [] with
                  | Some (vs, s') => if String.eqb s' "}" then Some (mkCacheFile ts vs) else None
                  | None => None
                  end
              end
          end
      end
  end.

End JsonModel.

Definition demo_io : save_io := mkSaveIO "/tmp/useragent-cache-1234.tmp" false false false false.

(** Stand-ins for the scrape: a matcher for [msEdgeVersionRegex], a parser
    for the layout [02-Jan-2006 15:04], and a sort. *)
Module MsModel.

Definition is_ws (c : ascii) : bool :=
  let n := nat_of_ascii c in
  (n =? 9)%nat || (n =? 10)%nat || (n =? 12)%nat || (n =? 13)%nat || (n =? 32)%nat.

(** [\s+] *)
Definition ws1 (s : string) : option string :=
  match Re.span is_ws s with
  | (EmptyString, _) => None
  | (_, r) => Some r
  end.

(** [\d{1,2}] followed by the byte [sep] *)
Definition digits12 (sep : ascii) (s : string) : option (string * string) :=
  let '(ds, r) := Re.span Str.is_digit s in
  if ((String.length ds =? 1)%nat || (String.length ds =? 2)%nat)
  then match r with
       | String c r' => if Ascii.eqb c sep then Some (ds, r') else None
       | EmptyString => None
       end
  else None.

(** exactly [n] bytes that satisfy [p] *)
Fixpoint exactly (n : nat) (p : ascii -> bool) (s : string) : option (string * string) :=
  match n with
  | O => Some (EmptyString, s)
  | S n' =>
      match s with
      | String c r =>
          if p c then
            match exactly n' p r with
            | Some (a, b) => Some (String c a, b)
            | None => None
            end
          else None
      | EmptyString => None
      end
  end.

(** the three groups of a match that starts at the head of [s], and what
    follows the match *)
Definition match_here (s : string) : option (string * string * string * string) :=
  match Re.drop_prefix ("<a href=" ++ dq) s with
  | None => None
  | Some s1 =>
    let '(filename, s2) := Re.span (fun c => negb (Ascii.eqb c "034")) s1 in
    if negb (Str.has_suffix ".deb" filename && (4 <? String.length filename)%nat) then None
    else
    match Re.drop_prefix (dq ++ ">") s2 with
    | None => None
    | Some s3 =>
      let '(text, s4) := Re.span (fun c => negb (Ascii.eqb c "<")) s3 in
      match text with
      | EmptyString => None
      | _ =>
        match Re.drop_prefix "</a>" s4 with
        | None => None
        | Some s5 =>
          match ws1 s5 with
          | None => None
          | Some s6 =>
            match digits12 "-" s6 with
            | None => None
            | Some (day, s7) =>
              match exactly 3 UrlModel.is_alpha s7 with
              | None => None
              | Some (mon, s8) =>
                match Re.drop_prefix "-" s8 with
                | None => None
                | Some s9 =>
                  match exactly 4 Str.is_digit s9 with
                  | None => None
                  | Some (year, s10) =>
                    match ws1 s10 with
                    | None => None
                    | Some s11 =>
                      match digits12 ":" s11 with
                      | None => None
                      | Some (hh, s12) =>
                        match exactly 2 Str.is_digit s12 with
                        | None => None
                        | Some (mm, s13) =>
                            Some (filename, day ++ "-" ++ mon ++ "-" ++ year, hh ++ ":" ++ mm, s13)
                        end
                      end
                    end
                  end
                end
              end
            end
          end
        end
      end
    end
  end.

(** all matches, leftmost first, none overlapping another *)
Fixpoint FindAll_fuel (fuel : nat) (s : string) : list (list string) :=
  match fuel with
  | O => []
  | S fuel' =>
      match match_here s with
      | Some (filename, date, time, rest) =>
          let whole := String.substring 0 (String.length s - String.length rest) s in
          [whole; filename; date; time] :: FindAll_fuel fuel' rest
      | None =>
          match s with
          | EmptyString => []
          | String _ r => FindAll_fuel fuel' r
          end
      end
  end.

Definition FindAllStringSubmatch (body : string) : list (list string) :=
  FindAll_fuel (S (String.length body)) body.

Definition months : list string :=
  ["jan"; "feb"; "mar"; "apr"; "may"; "jun"; "jul"; "aug"; "sep"; "oct"; "nov"; "dec"].

Fixpoint month_index (l : list string) (name : string) (i : Z) : option Z :=
  match l with
  | [] => None
  | m :: r => if String.eqb m name then Some i else month_index r name (i + 1)
  end.

(** [time.Parse] for the layout [02-Jan-2006 15:04] *)
Definition time_Parse (layout value : string) : option Time.t :=
  if negb (String.eqb layout msLayout) then None
  else
    match JsonModel.read_digits 2 value 0 with
    | None => None
    | Some (day, s) =>
      match Re.drop_prefix "-" s with
      | None => None
      | Some s =>
        match month_index months (lower (String.substring 0 3 s)) 1 with
        | None => None
        | Some month =>
          match Re.drop_prefix "-" (String.substring 3 (String.length s - 3) s) with
          | None => None
          | Some s =>
            match JsonModel.read_digits 4 s 0 with
            | None => None
            | Some (year, s) =>
              match Re.drop_prefix " " s with
              | None => None
              | Some s =>
                let '(hs, s) := Re.span Str.is_digit (snd (Re.span (fun c => Ascii.eqb c " ") s)) in
                match JsonModel.read_digits (String.length hs) hs 0,
                      ((String.length hs =? 1)%nat || (String.length hs =? 2)%nat) with
                | Some (hour, _), true =>
                  match Re.drop_prefix ":" s with
                  | None => None
                  | Some s =>
                    match JsonModel.read_digits 2 s 0 with
                    | Some (min, EmptyString) =>
                        if (day <? 1) || (Time.daysIn month year <? day)
                           || (23 <? hour) || (59 <? min)
                        then None
                        else Some (Time.Date year month day hour min 0 0)
                    | _ => None
                    end
                  end
                | _, _ => None
                end
              end
            end
          end
        end
      end
    end.

(** insertion sort, for [sort.Slice] *)
Fixpoint insert_by {A} (less : A -> A -> bool) (x : A) (l : list A) : list A :=
  match l with
  | [] => [x]
  | y :: r => if less y x then y :: insert_by less x r else x :: l
  end.

Fixpoint sort_Slice {A} (less : A -> A -> bool) (l : list A) : list A :=
  match l with
  | [] => []
  | x :: r => insert_by less x (sort_Slice less r)
  end.

End MsModel.

Definition demo_page : string :=
  "<html><body><pre>"
  ++ "<a href=" ++ dq ++ "microsoft-edge-stable_139.0.3405.86-1_amd64.deb" ++ dq
  ++ ">microsoft-edge-stable_139.0.3405.86-1_amd64.deb</a>   07-Aug-2025 20:31   170M "
  ++ "<a href=" ++ dq ++ "microsoft-edge-stable_140.0.3485.54-1_amd64.deb" ++ dq
  ++ ">microsoft-edge-stable_140.0.3485.54-1_amd64.deb</a>   05-Sep-2025 01:12   171M "
  ++ "<a href=" ++ dq ++ "microsoft-edge-stable_140.0.3485.54-1_amd64.deb" ++ dq
  ++ ">again</a>   04-Sep-2025 9:05   171M "
  ++ "<a href=" ++ dq ++ "broken.deb" ++ dq ++ ">broken.deb</a>   31-Feb-2025 10:00   1K "
  ++ "</pre></body></html>".
(* ===================================================================== *)
(** * Bounds on [float64] results

    The magnitude of a result of the arithmetic of [SpecFloat] is bounded
    by an integer below [2 ^ 53] whenever the exact result is: rounding to
    nearest never crosses a number of the format, and every such integer is
    one. *)
(* ===================================================================== *)

Section FloatBounds.

Lemma pow2_lt_pos (x k : Z) : 0 < x -> x < 2 ^ k -> 0 < k.
Proof.
  intros Hx Hk. destruct (Z.lt_trichotomy k 0) as [H|[H|H]]; [| |exact H].
  - rewrite Z.pow_neg_r in Hk by lia. lia.
  - subst. rewrite Z.pow_0_r in Hk. lia.
Qed.

Lemma digits2_upper (p : positive) (k : Z) :
  Zpos p < 2 ^ k -> Zpos (digits2_pos p) <= k.
Proof.
  revert k. induction p as [p IH|p IH|]; intros k Hk; cbn [digits2_pos].
  - assert (0 < k) by (apply (pow2_lt_pos (Zpos p~1)); lia).
    rewrite Pos2Z.inj_succ. specialize (IH (k - 1)).
    replace k with (k - 1 + 1) in Hk by lia. rewrite Z.pow_add_r in Hk by lia. lia.
  - assert (0 < k) by (apply (pow2_lt_pos (Zpos p~0)); lia).
    rewrite Pos2Z.inj_succ. specialize (IH (k - 1)).
    replace k with (k - 1 + 1) in Hk by lia. rewrite Z.pow_add_r in Hk by lia. lia.
  - assert (0 < k) by (apply (pow2_lt_pos 1); lia). change (Z.pos 1) with 1. lia.
Qed.

Lemma digits2_lower (p : positive) (k : Z) :
  0 <= k -> 2 ^ k <= Zpos p -> k + 1 <= Zpos (digits2_pos p).
Proof.
  revert k. induction p as [p IH|p IH|]; intros k Hk0 Hk; cbn [digits2_pos].
  - rewrite Pos2Z.inj_succ. destruct (Z.eq_dec k 0) as [->|Hne]; [lia|].
    specialize (IH (k - 1)).
    replace k with (k - 1 + 1) in Hk by lia. rewrite Z.pow_add_r in Hk by lia. lia.
  - rewrite Pos2Z.inj_succ. destruct (Z.eq_dec k 0) as [->|Hne]; [lia|].
    specialize (IH (k - 1)).
    replace k with (k - 1 + 1) in Hk by lia. rewrite Z.pow_add_r in Hk by lia. lia.
  - assert (k = 0); [|lia].
    destruct (Z.eq_dec k 0); [assumption|].
    assert (2 ^ 1 <= 2 ^ k) by (apply Z.pow_le_mono_r; lia). lia.
Qed.

Lemma Zdigits2_upper (m k : Z) : 0 <= m -> 0 <= k -> m < 2 ^ k -> Zdigits2 m <= k.
Proof.
  intros Hm Hk Hlt. destruct m as [|p|p]; cbn [Zdigits2]; try lia.
  now apply digits2_upper.
Qed.

Lemma iter_pos_nat {A} (f : A -> A) (p : positive) (x : A) :
  SpecFloat.iter_pos f p x = @Nat.iter (Pos.to_nat p) _ f x.
Proof.
  revert x. induction p as [p IH|p IH|]; intros x; cbn [SpecFloat.iter_pos].
  - rewrite !IH, Pos2Nat.inj_xI.
    replace (S (2 * Pos.to_nat p)) with (Pos.to_nat p + (Pos.to_nat p + 1))%nat by lia.
    rewrite !Nat.iter_add. reflexivity.
  - rewrite !IH, Pos2Nat.inj_xO.
    replace (2 * Pos.to_nat p)%nat with (Pos.to_nat p + Pos.to_nat p)%nat by lia.
    rewrite Nat.iter_add. reflexivity.
  - reflexivity.
Qed.

Lemma shr_1_m (mrs : shr_record) : 0 <= shr_m mrs -> shr_m (shr_1 mrs) = shr_m mrs / 2.
Proof.
  destruct mrs as [m r s]. cbn [shr_m]. intros Hm.
  destruct m as [|[p|p|]|p]; cbn [shr_1 shr_m]; try lia; try reflexivity.
  - apply Z.div_unique with (r := 1); lia.
  - apply Z.div_unique with (r := 0); lia.
Qed.

Lemma shr_1_exact (m : Z) :
  0 <= m -> m mod 2 = 0 ->
  shr_1 (Build_shr_record m false false) = Build_shr_record (m / 2) false false.
Proof.
  intros Hm Heven. destruct m as [|[p|p|]|p]; try lia; cbn [shr_1 orb].
  - reflexivity.
  - exfalso. rewrite Pos2Z.inj_xI in Heven. Z.div_mod_to_equations. lia.
  - f_equal. apply Z.div_unique with (r := 0); lia.
  - exfalso. discriminate.
Qed.

Lemma shr_iter_m (k : nat) (mrs : shr_record) :
  0 <= shr_m mrs ->
  shr_m (@Nat.iter k _ shr_1 mrs) = shr_m mrs / 2 ^ Z.of_nat k.
Proof.
  intros Hm. induction k as [|k IH].
  - cbn. now rewrite Z.div_1_r.
  - rewrite PeanoNat.Nat.iter_succ, shr_1_m.
    + rewrite IH, Z.div_div by lia.
      rewrite Nat2Z.inj_succ, Z.pow_succ_r by lia. f_equal. lia.
    + rewrite IH. apply Z.div_pos; lia.
Qed.

Lemma shr_iter_exact (k : nat) (m : Z) :
  0 <= m -> m mod 2 ^ Z.of_nat k = 0 ->
  @Nat.iter k _ shr_1 (Build_shr_record m false false)
  = Build_shr_record (m / 2 ^ Z.of_nat k) false false.
Proof.
  intros Hm. induction k as [|k IH]; intros Hdiv.
  - cbn. now rewrite Z.div_1_r.
  - rewrite Nat2Z.inj_succ, Z.pow_succ_r in Hdiv by lia.
    assert (H2k : 0 < 2 ^ Z.of_nat k) by lia.
    assert (Hq : m = 2 * 2 ^ Z.of_nat k * (m / (2 * 2 ^ Z.of_nat k))).
    { pose proof (Z.div_mod m (2 * 2 ^ Z.of_nat k)). lia. }
    set (q := m / (2 * 2 ^ Z.of_nat k)) in *.
    assert (Hmk : m / 2 ^ Z.of_nat k = 2 * q).
    { rewrite Hq at 1. replace (2 * 2 ^ Z.of_nat k * q) with (2 * q * 2 ^ Z.of_nat k) by lia.
      apply Z.div_mul. lia. }
    rewrite PeanoNat.Nat.iter_succ, IH.
    + rewrite Hmk, shr_1_exact.
      * rewrite Nat2Z.inj_succ, Z.pow_succ_r by lia. fold q.
        f_equal. replace (2 * q) with (q * 2) by lia. apply Z.div_mul. lia.
      * assert (0 <= q); [|lia]. subst q. apply Z.div_pos; lia.
      * replace (2 * q) with (q * 2) by lia. apply Z.mod_mul. lia.
    + rewrite Hq. replace (2 * 2 ^ Z.of_nat k * q) with (2 * q * 2 ^ Z.of_nat k) by lia.
      apply Z.mod_mul. lia.
Qed.

Lemma loc_of_record (m : Z) (l : location) :
  loc_of_shr_record (shr_record_of_loc m l) = l.
Proof. destruct l as [|[]]; reflexivity. Qed.

Lemma shr_m_of_loc (m : Z) (l : location) : shr_m (shr_record_of_loc m l) = m.
Proof. destruct l as [|[]]; reflexivity. Qed.

Lemma shr_spec (m : Z) (l : location) (e n : Z) :
  0 <= m ->
  let k := Z.max 0 n in
  snd (shr (shr_record_of_loc m l) e n) = e + k /\
  shr_m (fst (shr (shr_record_of_loc m l) e n)) = m / 2 ^ k /\
  (k = 0 -> loc_of_shr_record (fst (shr (shr_record_of_loc m l) e n)) = l) /\
  (l = loc_Exact -> m mod 2 ^ k = 0 ->
   loc_of_shr_record (fst (shr (shr_record_of_loc m l) e n)) = loc_Exact).
Proof.
  intros Hm k. unfold shr. destruct n as [|p|p]; subst k.
  - cbn [fst snd Z.max]. rewrite shr_m_of_loc, loc_of_record, Z.div_1_r.
    repeat split; auto; lia.
  - replace (Z.max 0 (Z.pos p)) with (Z.pos p) by lia. cbn [fst snd].
    rewrite iter_pos_nat. split; [reflexivity|]. split; [|split].
    + rewrite shr_iter_m by (rewrite shr_m_of_loc; exact Hm).
      now rewrite shr_m_of_loc, positive_nat_Z.
    + lia.
    + intros -> Hdiv. cbn [shr_record_of_loc].
      rewrite shr_iter_exact; [reflexivity | exact Hm | now rewrite positive_nat_Z].
  - replace (Z.max 0 (Z.neg p)) with 0 by lia. cbn [fst snd].
    rewrite shr_m_of_loc, loc_of_record, Z.div_1_r. repeat split; auto; lia.
Qed.

Lemma fexp_nonpos (x : Z) : x <= 53 -> fexp F64.prec F64.emax x <= 0.
Proof. unfold fexp, emin, F64.prec, F64.emax. lia. Qed.

Lemma pow2_split (a b : Z) : 0 <= a -> 0 <= b -> 2 ^ (a + b) = 2 ^ a * 2 ^ b.
Proof. intros. now rewrite Z.pow_add_r. Qed.

(** the invariant of rounding: what is kept, plus the F64.slack, stays at most
    [N] on the grid of the exponent *)
Lemma shr_fexp_bound (m e : Z) (l : location) (N : Z) :
  0 <= m -> e <= 0 -> 0 <= N < 2 ^ 53 ->
  m + F64.slack l <= N * 2 ^ (- e) ->
  let mrs := fst (shr_fexp F64.prec F64.emax m e l) in
  let e' := snd (shr_fexp F64.prec F64.emax m e l) in
  e' <= 0 /\ 0 <= shr_m mrs /\
  shr_m mrs + F64.slack (loc_of_shr_record mrs) <= N * 2 ^ (- e').
Proof.
  intros Hm He HN Hmu. cbv zeta. unfold shr_fexp.
  set (n := fexp F64.prec F64.emax (Zdigits2 m + e) - e).
  destruct (shr_spec m l e n Hm) as (He' & Hm' & Hk0 & Hexact).
  set (k := Z.max 0 n) in *.
  set (sh := shr (shr_record_of_loc m l) e n) in *.
  assert (Hslack : 0 <= F64.slack l <= 1) by (destruct l; cbn; lia).
  assert (Hpe : 0 < 2 ^ (- e)) by (apply Z.pow_pos_nonneg; lia).
  assert (Hdig : Zdigits2 m + e <= 53).
  { assert (Zdigits2 m <= 53 - e); [|lia].
    apply Zdigits2_upper; try lia.
    replace (53 - e) with (53 + - e) by lia. rewrite pow2_split by lia. nia. }
  assert (Hk : 0 <= k) by (subst k; lia).
  assert (He'0 : snd sh <= 0).
  { rewrite He'. pose proof (fexp_nonpos _ Hdig). subst k n. lia. }
  assert (Hpk : 0 < 2 ^ k) by (apply Z.pow_pos_nonneg; lia).
  assert (Hpe' : 0 < 2 ^ (- snd sh)) by (apply Z.pow_pos_nonneg; lia).
  assert (Hgrid : N * 2 ^ (- e) = N * 2 ^ (- snd sh) * 2 ^ k).
  { replace (- e) with (- snd sh + k) by lia. rewrite pow2_split by lia. lia. }
  set (G := N * 2 ^ (- snd sh)) in *.
  split; [exact He'0|]. split.
  { rewrite Hm'. apply Z.div_pos; lia. }
  rewrite Hm'.
  assert (Hle : m / 2 ^ k <= G).
  { apply Z.div_le_upper_bound; lia. }
  destruct (Z.eq_dec (m / 2 ^ k) G) as [Heq|Hne].
  - assert (Hmge : G * 2 ^ k <= m).
    { rewrite <- Heq. rewrite (Z.mul_comm (m / 2 ^ k)). apply Z.mul_div_le. lia. }
    assert (Hmeq : m = G * 2 ^ k) by lia.
    assert (Hl : l = loc_Exact) by (destruct l; [reflexivity | cbn in Hmu; lia]).
    rewrite Hexact; [cbn; lia | exact Hl |].
    rewrite Hmeq. apply Z.mod_mul. lia.
  - assert (0 <= F64.slack (loc_of_shr_record (fst sh)) <= 1)
      by (destruct (loc_of_shr_record (fst sh)); cbn; lia).
    lia.
Qed.

Lemma round_nearest_even_le (m : Z) (l : location) :
  m <= round_nearest_even m l <= m + F64.slack l.
Proof.
  destruct l as [|[]]; cbn [round_nearest_even F64.slack]; try lia.
  destruct (Z.even m); lia.
Qed.

(** rounding keeps a magnitude at most [N] at most [N] *)
Lemma round_aux_within (s : bool) (m e : Z) (l : location) (N : Z) :
  0 <= m -> e <= 0 -> 0 <= N < 2 ^ 53 ->
  m + F64.slack l <= N * 2 ^ (- e) ->
  F64.within s N (binary_round_aux F64.prec F64.emax s m e l).
Proof.
  intros Hm He HN Hmu. unfold binary_round_aux.
  destruct (shr_fexp_bound m e l N Hm He HN Hmu) as (He1 & Hm1 & Hb1).
  destruct (shr_fexp F64.prec F64.emax m e l) as [mrs1 e1]. cbn [fst snd] in *.
  pose proof (round_nearest_even_le (shr_m mrs1) (loc_of_shr_record mrs1)) as Hr.
  set (m2 := round_nearest_even (shr_m mrs1) (loc_of_shr_record mrs1)) in *.
  destruct (shr_fexp_bound m2 e1 loc_Exact N) as (He2 & Hm2 & Hb2);
    [lia | exact He1 | exact HN | cbn [F64.slack]; lia |].
  destruct (shr_fexp F64.prec F64.emax m2 e1 loc_Exact) as [mrs2 e2]. cbn [fst snd] in *.
  assert (0 <= F64.slack (loc_of_shr_record mrs2)) by (destruct (loc_of_shr_record mrs2); cbn; lia).
  destruct (shr_m mrs2) as [|p|p] eqn:Hm3.
  - reflexivity.
  - assert (Hov : (e2 <=? F64.emax - F64.prec) = true)
      by (apply Z.leb_le; unfold F64.emax, F64.prec; lia).
    rewrite Hov. cbn [F64.within]. repeat split; [exact He2 | lia].
  - lia.
Qed.

Lemma within_mag s N f : F64.within s N f -> F64.mag N f.
Proof. destruct f; cbn; tauto. Qed.

Lemma within_nonneg N f : F64.within false N f -> F64.nonneg f = true.
Proof. destruct f; cbn; try tauto. intros [-> _]. reflexivity. Qed.

Lemma mag_mono N N' f : N <= N' -> F64.mag N f -> F64.mag N' f.
Proof.
  intros HN. destruct f as [| | |s m e]; cbn; try tauto.
  intros [He Hm]. split; [exact He|].
  assert (0 < 2 ^ (- e)) by (apply Z.pow_pos_nonneg; lia). nia.
Qed.

Lemma pos_iter_xO (m d : positive) : Zpos (Pos.iter xO m d) = Zpos m * 2 ^ Zpos d.
Proof.
  induction d as [|d IH] using Pos.peano_ind.
  - cbn [Pos.iter]. rewrite Pos2Z.inj_xO. change (2 ^ 1) with 2. lia.
  - rewrite Pos.iter_succ, Pos2Z.inj_xO, IH, Pos2Z.inj_succ, Z.pow_succ_r by lia. lia.
Qed.

Lemma shl_align_spec (mx : positive) (ex ex' : Z) :
  snd (shl_align mx ex ex') = Z.min ex ex' /\
  Zpos (fst (shl_align mx ex ex')) = Zpos mx * 2 ^ (ex - Z.min ex ex').
Proof.
  unfold shl_align. destruct (ex' - ex) as [|d|d] eqn:Hd; cbn [fst snd].
  - replace (Z.min ex ex') with ex by lia. rewrite Z.sub_diag. cbn. lia.
  - replace (Z.min ex ex') with ex by lia. rewrite Z.sub_diag. cbn. lia.
  - replace (Z.min ex ex') with ex' by lia. split; [reflexivity|].
    rewrite pos_iter_xO. f_equal. f_equal. lia.
Qed.

(** an aligned mantissa keeps the bound *)
Lemma aligned_bound (mx : positive) (ex ez N : Z) :
  ez <= ex -> ex <= 0 -> Zpos mx <= N * 2 ^ (- ex) ->
  Zpos (fst (shl_align mx ex ez)) <= N * 2 ^ (- ez).
Proof.
  intros Hez Hex Hm. destruct (shl_align_spec mx ex ez) as [_ ->].
  replace (Z.min ex ez) with ez by lia.
  replace (- ez) with (- ex + (ex - ez)) by lia. rewrite pow2_split by lia.
  assert (0 < 2 ^ (ex - ez)) by (apply Z.pow_pos_nonneg; lia). nia.
Qed.

Lemma binary_round_within (s : bool) (mx : positive) (ex N : Z) :
  ex <= 0 -> 0 <= N < 2 ^ 53 -> Zpos mx <= N * 2 ^ (- ex) ->
  F64.within s N (binary_round F64.prec F64.emax s mx ex).
Proof.
  intros Hex HN Hm. unfold binary_round.
  set (ez := fexp F64.prec F64.emax (Z.pos (digits2_pos mx) + ex)).
  destruct (shl_align_spec mx ex ez) as [He Hmz].
  pose proof (aligned_bound mx ex (Z.min ex ez) N ltac:(lia) Hex Hm) as Hb.
  assert (Hsame : shl_align mx ex (Z.min ex ez) = shl_align mx ex ez).
  { unfold shl_align. destruct (Z.min_spec ex ez) as [[Hlt ->]|[Hge ->]]; [|reflexivity].
    rewrite Z.sub_diag. destruct (ez - ex) eqn:E; try reflexivity. lia. }
  rewrite Hsame in Hb.
  destruct (shl_align mx ex ez) as [mz ez']. cbn [fst snd] in *. subst ez'.
  apply round_aux_within; cbn [F64.slack]; try lia.
Qed.

Lemma binary_normalize_mag (m e N : Z) (sz : bool) :
  e <= 0 -> 0 <= N < 2 ^ 53 -> Z.abs m <= N * 2 ^ (- e) ->
  F64.mag N (binary_normalize F64.prec F64.emax m e sz) /\
  (0 <= m -> F64.nonneg (binary_normalize F64.prec F64.emax m e sz) = true).
Proof.
  intros He HN Hm. destruct m as [|p|p]; cbn [binary_normalize].
  - split; [exact I | reflexivity].
  - pose proof (binary_round_within false p e N He HN ltac:(lia)) as Hw.
    split; [now apply within_mag in Hw | intros _; now apply within_nonneg in Hw].
  - pose proof (binary_round_within true p e N He HN ltac:(lia)) as Hw.
    split; [now apply within_mag in Hw | lia].
Qed.

Lemma of_Z_mag (z : Z) :
  0 <= z < 2 ^ 53 -> F64.mag z (F64.of_Z z) /\ F64.nonneg (F64.of_Z z) = true.
Proof.
  intros Hz. unfold F64.of_Z.
  destruct (binary_normalize_mag z 0 z false ltac:(lia) Hz) as [H1 H2].
  - cbn. lia.
  - split; [exact H1 | apply H2; lia].
Qed.

Lemma cond_Zopp_abs (b : bool) (m : Z) : Z.abs (cond_Zopp b m) = Z.abs m.
Proof. destruct b; cbn [cond_Zopp]; lia. Qed.

(** the sum of two bounded numbers is bounded by the sum of the bounds *)
Lemma add_mag (a b : spec_float) (A B : Z) :
  F64.mag A a -> F64.mag B b -> 0 <= A -> 0 <= B -> A + B < 2 ^ 53 ->
  F64.mag (A + B) (F64.add a b) /\
  (F64.nonneg a = true -> F64.nonneg b = true -> F64.nonneg (F64.add a b) = true).
Proof.
  intros Ha Hb HA HB HAB. unfold F64.add.
  destruct a as [sa| | |sa ma ea], b as [sb| | |sb mb eb]; cbn [F64.mag] in Ha, Hb;
    try contradiction; cbn [SFadd].
  - split; [destruct sa, sb; exact I | destruct sa, sb; reflexivity].
  - split; [|auto]. apply (mag_mono B); [lia | exact Hb].
  - split; [|auto]. apply (mag_mono A); [lia | exact Ha].
  - destruct Ha as [Hea Hma], Hb as [Heb Hmb].
    set (ez := Z.min ea eb).
    pose proof (aligned_bound ma ea ez A ltac:(subst ez; lia) Hea Hma) as Hxa.
    pose proof (aligned_bound mb eb ez B ltac:(subst ez; lia) Heb Hmb) as Hxb.
    set (xa := Z.pos (fst (shl_align ma ea ez))) in *.
    set (xb := Z.pos (fst (shl_align mb eb ez))) in *.
    assert (0 < xa /\ 0 < xb) as [Hpa Hpb] by (subst xa xb; lia).
    destruct (binary_normalize_mag (cond_Zopp sa xa + cond_Zopp sb xb) ez (A + B) false)
      as [Hm Hn].
    + subst ez. lia.
    + lia.
    + pose proof (cond_Zopp_abs sa xa). pose proof (cond_Zopp_abs sb xb). lia.
    + split; [exact Hm|]. cbn [F64.nonneg]. intros Hsa Hsb.
      apply negb_true_iff in Hsa, Hsb. subst sa sb. apply Hn. cbn [cond_Zopp]. lia.
Qed.

(** a bounded non-negative number less a bounded non-negative number:
    non-negative and bounded by the first bound, or bounded by the second *)
Lemma sub_mag (a b : spec_float) (A B : Z) :
  F64.mag A a -> F64.mag B b -> 0 <= A < 2 ^ 53 -> 0 <= B < 2 ^ 53 ->
  F64.nonneg a = true -> F64.nonneg b = true ->
  (F64.nonneg (F64.sub a b) = true /\ F64.mag A (F64.sub a b)) \/
  F64.mag B (F64.sub a b).
Proof.
  intros Ha Hb HA HB Hna Hnb. unfold F64.sub.
  destruct a as [sa| | |sa ma ea], b as [sb| | |sb mb eb]; cbn [F64.mag] in Ha, Hb;
    try contradiction; cbn [SFsub].
  - left. split; destruct sa, sb; (reflexivity || exact I).
  - right. exact Hb.
  - left. split; [exact Hna | exact Ha].
  - cbn [F64.nonneg] in Hna, Hnb. apply negb_true_iff in Hna, Hnb. subst sa sb.
    destruct Ha as [Hea Hma], Hb as [Heb Hmb].
    set (ez := Z.min ea eb).
    pose proof (aligned_bound ma ea ez A ltac:(subst ez; lia) Hea Hma) as Hxa.
    pose proof (aligned_bound mb eb ez B ltac:(subst ez; lia) Heb Hmb) as Hxb.
    set (xa := Z.pos (fst (shl_align ma ea ez))) in *.
    set (xb := Z.pos (fst (shl_align mb eb ez))) in *.
    assert (0 < xa /\ 0 < xb) as [Hpa Hpb] by (subst xa xb; lia).
    cbn [cond_Zopp].
    destruct (Z_le_gt_dec xb xa) as [Hle|Hgt].
    + left. destruct (binary_normalize_mag (xa - xb) ez A false) as [Hm Hn];
        [subst ez; lia | lia | lia |].
      split; [apply Hn; lia | exact Hm].
    + right. destruct (binary_normalize_mag (xa - xb) ez B false) as [Hm _];
        [subst ez; lia | lia | lia |]. exact Hm.
Qed.

(** the product of two bounded numbers is bounded by the product of the
    bounds *)
Lemma mul_mag (a b : spec_float) (A B : Z) :
  F64.mag A a -> F64.mag B b -> 0 <= A -> 0 <= B -> A * B < 2 ^ 53 ->
  F64.mag (A * B) (F64.mul a b) /\
  (F64.nonneg a = true -> F64.nonneg b = true -> F64.nonneg (F64.mul a b) = true).
Proof.
  intros Ha Hb HA HB HAB. unfold F64.mul.
  destruct a as [sa| | |sa ma ea], b as [sb| | |sb mb eb]; cbn [F64.mag] in Ha, Hb;
    try contradiction; cbn [SFmul]; try (split; [exact I | reflexivity]).
  destruct Ha as [Hea Hma], Hb as [Heb Hmb].
  assert (Hpa : 0 < 2 ^ (- ea)) by (apply Z.pow_pos_nonneg; lia).
  assert (Hpb : 0 < 2 ^ (- eb)) by (apply Z.pow_pos_nonneg; lia).
  pose proof (round_aux_within (xorb sa sb) (Z.pos (ma * mb)) (ea + eb) loc_Exact (A * B)) as Hw.
  cbn [F64.slack] in Hw.
  assert (Hbound : Z.pos (ma * mb) + 0 <= A * B * 2 ^ (- (ea + eb))).
  { replace (- (ea + eb)) with (- ea + - eb) by lia. rewrite pow2_split by lia.
    rewrite Pos2Z.inj_mul.
    assert (Z.pos ma * Z.pos mb <= (A * 2 ^ (- ea)) * (B * 2 ^ (- eb))).
    { apply Z.mul_le_mono_nonneg; lia. }
    lia. }
  specialize (Hw ltac:(lia) ltac:(lia) ltac:(nia) Hbound).
  split; [now apply within_mag in Hw|].
  cbn [F64.nonneg]. intros Hsa Hsb. apply negb_true_iff in Hsa, Hsb. subst sa sb.
  now apply within_nonneg in Hw.
Qed.

Lemma new_location_slack (nb k : Z) :
  F64.slack (new_location nb k) = if k =? 0 then 0 else 1.
Proof.
  unfold new_location, new_location_even, new_location_odd.
  destruct (Z.even nb), (k =? 0); reflexivity.
Qed.

(** a bounded number divided by a constant [K >= 1]: bounded by any integer
    [C] with [A <= C * K] *)
Lemma div_mag (a : spec_float) (A K C : Z) (mc : positive) (ec : Z) :
  F64.mag A a -> ec <= 0 -> Zpos mc = K * 2 ^ (- ec) -> 1 <= K ->
  0 <= A < 2 ^ 53 -> A <= C * K -> 0 <= C < 2 ^ 53 ->
  F64.mag C (F64.div a (S754_finite false mc ec)) /\
  (F64.nonneg a = true -> F64.nonneg (F64.div a (S754_finite false mc ec)) = true).
Proof.
  intros Ha Hec Hmc HK HA HAC HC. unfold F64.div.
  destruct a as [sa| | |sa ma ea]; cbn [F64.mag] in Ha; try contradiction; cbn [SFdiv].
  { split; [exact I | reflexivity]. }
  destruct Ha as [Hea Hma]. unfold SFdiv_core_binary.
  set (d1 := Zdigits2 (Z.pos ma)). set (d2 := Zdigits2 (Z.pos mc)).
  set (e' := Z.min (fexp F64.prec F64.emax (d1 + ea - (d2 + ec))) (ea - ec)).
  set (s := ea - ec - e').
  assert (Hpea : 0 < 2 ^ (- ea)) by (apply Z.pow_pos_nonneg; lia).
  assert (Hpec : 0 < 2 ^ (- ec)) by (apply Z.pow_pos_nonneg; lia).
  assert (Hd1 : d1 <= 53 - ea).
  { subst d1. cbn [Zdigits2]. apply digits2_upper.
    replace (53 - ea) with (53 + - ea) by lia. rewrite pow2_split by lia. nia. }
  assert (Hd2 : - ec + 1 <= d2).
  { subst d2. cbn [Zdigits2]. apply digits2_lower; [lia | nia]. }
  assert (He' : e' <= 0).
  { subst e'. pose proof (fexp_nonpos (d1 + ea - (d2 + ec)) ltac:(lia)). lia. }
  assert (Hs : 0 <= s) by (subst s e'; lia).
  assert (Hps : 0 < 2 ^ s) by (apply Z.pow_pos_nonneg; lia).
  assert (Hpe' : 0 < 2 ^ (- e')) by (apply Z.pow_pos_nonneg; lia).
  set (m' := match s with
             | 0 => Z.pos ma
             | Z.pos _ => Z.shiftl (Z.pos ma) s
             | Z.neg _ => 0
             end).
  assert (Hm' : m' = Z.pos ma * 2 ^ s).
  { subst m'. destruct s as [|p|p] eqn:Es; [cbn; lia | | lia].
    apply Z.shiftl_mul_pow2. lia. }
  pose proof (Z_div_mod m' (Z.pos mc) ltac:(lia)) as Hdm.
  destruct (Z.div_eucl m' (Z.pos mc)) as [q r]. destruct Hdm as [Hq Hr].
  assert (Hq0 : 0 <= q) by nia.
  assert (Hbig : m' <= C * 2 ^ (- e') * Z.pos mc).
  { rewrite Hm', Hmc.
    assert (Hsplit : 2 ^ (- ea) * 2 ^ s = 2 ^ (- ec) * 2 ^ (- e')).
    { rewrite <- !pow2_split by lia. f_equal. subst s. lia. }
    assert (Z.pos ma * 2 ^ s <= A * (2 ^ (- ea) * 2 ^ s)) by nia.
    rewrite Hsplit in H. nia. }
  pose proof (round_aux_within (xorb sa false) q e' (new_location (Z.pos mc) r) C) as Hw.
  rewrite new_location_slack in Hw.
  assert (Hqs : q + (if r =? 0 then 0 else 1) <= C * 2 ^ (- e')).
  { destruct (r =? 0) eqn:Er.
    - apply Z.eqb_eq in Er. subst r. nia.
    - apply Z.eqb_neq in Er. nia. }
  specialize (Hw Hq0 He' HC Hqs).
  split; [now apply within_mag in Hw|].
  cbn [F64.nonneg]. intros Hsa. apply negb_true_iff in Hsa. subst sa.
  now apply within_nonneg in Hw.
Qed.

(** [math.Round] keeps an integer bound *)
Lemma Round_mag (f : spec_float) (N : Z) :
  F64.mag N f -> 0 <= N < 2 ^ 53 ->
  F64.mag N (F64.Round f) /\
  (F64.nonneg f = true -> F64.nonneg (F64.Round f) = true).
Proof.
  intros Hf HN. destruct f as [s| | |s m e]; cbn [F64.mag] in Hf; try contradiction.
  { split; [exact I | auto]. }
  destruct Hf as [He Hm]. cbn [F64.Round].
  destruct (0 <=? e) eqn:E0.
  { split; [cbn [F64.mag]; auto | auto]. }
  apply Z.leb_gt in E0.
  set (d := 2 ^ (- e)) in *.
  assert (Hd : 0 < d) by (subst d; apply Z.pow_pos_nonneg; lia).
  pose proof (Z.div_mod (Z.pos m) d ltac:(lia)) as Hdm.
  pose proof (Z.mod_pos_bound (Z.pos m) d Hd) as Hr.
  set (q := Z.pos m / d) in *. set (r := Z.pos m mod d) in *.
  assert (Hq' : (if d <=? 2 * r then q + 1 else q) <= N).
  { destruct (d <=? 2 * r) eqn:Eup.
    - apply Z.leb_le in Eup. nia.
    - nia. }
  destruct (if d <=? 2 * r then q + 1 else q) as [|p|p] eqn:Eq'.
  - split; [exact I | auto].
  - pose proof (binary_round_within s p 0 N ltac:(lia) HN ltac:(cbn; lia)) as Hw.
    split; [now apply within_mag in Hw|].
    cbn [F64.nonneg]. intros Hs. apply negb_true_iff in Hs. subst s.
    now apply within_nonneg in Hw.
  - split; [exact I | auto].
Qed.

(** the conversion to [int] of a bounded non-negative number *)
Lemma to_int_bound (f : spec_float) (N : Z) :
  F64.mag N f -> F64.nonneg f = true -> 0 <= N <= F64.maxInt64 ->
  0 <= F64.to_int f <= N.
Proof.
  intros Hf Hn HN. destruct f as [s| | |s m e]; cbn [F64.mag] in Hf; try contradiction.
  { cbn [F64.to_int]. lia. }
  destruct Hf as [He Hm]. cbn [F64.nonneg] in Hn. apply negb_true_iff in Hn. subst s.
  cbn [F64.to_int].
  assert (Hd : 0 < 2 ^ (- e)) by (apply Z.pow_pos_nonneg; lia).
  assert (Ha : 0 <= (if 0 <=? e then Z.pos m * 2 ^ e else Z.pos m / 2 ^ (- e)) <= N).
  { destruct (0 <=? e) eqn:E0.
    - apply Z.leb_le in E0. assert (e = 0) by lia. subst e. cbn in Hm |- *. lia.
    - split; [apply Z.div_pos; lia | apply Z.div_le_upper_bound; lia]. }
  set (a := if 0 <=? e then Z.pos m * 2 ^ e else Z.pos m / 2 ^ (- e)) in *.
  assert (Hrange : (F64.minInt64 <=? a) && (a <=? F64.maxInt64) = true).
  { apply andb_true_iff. unfold F64.minInt64, F64.maxInt64 in *.
    split; [apply Z.leb_le | apply Z.leb_le]; lia. }
  rewrite Hrange. lia.
Qed.

(** a positive constant plus a number of smaller magnitude *)
Lemma add_dominant (ma : positive) (ea : Z) (b : spec_float) (A B : Z) :
  ea <= 0 -> Zpos ma = A * 2 ^ (- ea) -> F64.mag B b -> 0 <= B < A -> A + B < 2 ^ 53 ->
  F64.nonneg (F64.add (S754_finite false ma ea) b) = true /\
  F64.mag (A + B) (F64.add (S754_finite false ma ea) b).
Proof.
  intros Hea Hma Hb HB HAB.
  assert (Ha : F64.mag A (S754_finite false ma ea)) by (cbn [F64.mag]; split; lia).
  split; [|apply add_mag; auto; lia].
  unfold F64.add. destruct b as [sb| | |sb mb eb]; cbn [F64.mag] in Hb; try contradiction;
    cbn [SFadd]; [reflexivity|].
  destruct Hb as [Heb Hmb].
  set (ez := Z.min ea eb).
  pose proof (aligned_bound mb eb ez B ltac:(subst ez; lia) Heb Hmb) as Hxb.
  destruct (shl_align_spec ma ea ez) as [_ Hxa].
  replace (Z.min ea ez) with ez in Hxa by (subst ez; lia).
  set (xa := Z.pos (fst (shl_align ma ea ez))) in *.
  set (xb := Z.pos (fst (shl_align mb eb ez))) in *.
  assert (Hpz : 0 < 2 ^ (- ez)) by (apply Z.pow_pos_nonneg; subst ez; lia).
  assert (Hxa' : xa = A * 2 ^ (- ez)).
  { rewrite Hxa, Hma. replace (- ez) with (- ea + (ea - ez)) by lia.
    rewrite pow2_split by (subst ez; lia). lia. }
  assert (0 < xb) by (subst xb; lia).
  destruct (binary_normalize_mag (cond_Zopp false xa + cond_Zopp sb xb) ez (A + B) false)
    as [_ Hn].
  - subst ez. lia.
  - lia.
  - pose proof (cond_Zopp_abs sb xb). cbn [cond_Zopp] in *. destruct sb; cbn [cond_Zopp]; nia.
  - apply Hn. destruct sb; cbn [cond_Zopp]; nia.
Qed.

Lemma of_Z_mag_abs (z : Z) : Z.abs z < 2 ^ 53 -> F64.mag (Z.abs z) (F64.of_Z z).
Proof.
  intros Hz. unfold F64.of_Z.
  apply (binary_normalize_mag z 0 (Z.abs z) false); [lia | lia | cbn; lia].
Qed.

(** the difference of two bounded numbers is bounded by the sum of the
    bounds *)
Lemma sub_mag_any (a b : spec_float) (A B : Z) :
  F64.mag A a -> F64.mag B b -> 0 <= A -> 0 <= B -> A + B < 2 ^ 53 ->
  F64.mag (A + B) (F64.sub a b).
Proof.
  intros Ha Hb HA HB HAB. unfold F64.sub.
  destruct a as [sa| | |sa ma ea], b as [sb| | |sb mb eb]; cbn [F64.mag] in Ha, Hb;
    try contradiction; cbn [SFsub].
  - destruct sa, sb; exact I.
  - apply (mag_mono B); [lia | exact Hb].
  - apply (mag_mono A); [lia | exact Ha].
  - destruct Ha as [Hea Hma], Hb as [Heb Hmb].
    set (ez := Z.min ea eb).
    pose proof (aligned_bound ma ea ez A ltac:(subst ez; lia) Hea Hma) as Hxa.
    pose proof (aligned_bound mb eb ez B ltac:(subst ez; lia) Heb Hmb) as Hxb.
    set (xa := Z.pos (fst (shl_align ma ea ez))) in *.
    set (xb := Z.pos (fst (shl_align mb eb ez))) in *.
    assert (0 < xa /\ 0 < xb) as [Hpa Hpb] by (subst xa xb; lia).
    apply binary_normalize_mag; [subst ez; lia | lia |].
    pose proof (cond_Zopp_abs sa xa). pose proof (cond_Zopp_abs sb xb). lia.
Qed.

(** the conversion to [int] of a bounded number stays in range *)
Lemma to_int_abs (f : spec_float) (N : Z) :
  F64.mag N f -> 0 <= N <= F64.maxInt64 -> Z.abs (F64.to_int f) <= N.
Proof.
  intros Hf HN. destruct f as [s| | |s m e]; cbn [F64.mag] in Hf; try contradiction.
  { cbn [F64.to_int]. lia. }
  destruct Hf as [He Hm]. cbn [F64.to_int].
  assert (Hd : 0 < 2 ^ (- e)) by (apply Z.pow_pos_nonneg; lia).
  assert (Ha : 0 <= (if 0 <=? e then Z.pos m * 2 ^ e else Z.pos m / 2 ^ (- e)) <= N).
  { destruct (0 <=? e) eqn:E0.
    - apply Z.leb_le in E0. assert (e = 0) by lia. subst e. cbn in Hm |- *. lia.
    - split; [apply Z.div_pos; lia | apply Z.div_le_upper_bound; lia]. }
  set (a := if 0 <=? e then Z.pos m * 2 ^ e else Z.pos m / 2 ^ (- e)) in *.
  assert (Hrange : (F64.minInt64 <=? (if s then - a else a))
                   && ((if s then - a else a) <=? F64.maxInt64) = true).
  { apply andb_true_iff. unfold F64.minInt64, F64.maxInt64 in *.
    destruct s; split; apply Z.leb_le; lia. }
  rewrite Hrange. destruct s; lia.
Qed.

End FloatBounds.

(* --------------------------------------------------------------------- *)
(** ** The components of an approximated version *)
(* --------------------------------------------------------------------- *)

Ltac float_const c :=
  let v := eval vm_compute in c in change c with v.

Lemma since_t0_bounds (d : Time.t) :
  Time.unixNano t0 <= Time.unixNano d ->
  0 <= Time.Sub d t0 <= Time.maxDuration.
Proof.
  intros Hd. unfold Time.Sub, Time.minDuration, Time.maxDuration.
  destruct (_ <? - 2 ^ 63) eqn:E1.
  - apply Z.ltb_lt in E1. lia.
  - destruct (2 ^ 63 - 1 <? _) eqn:E2; [lia|]. apply Z.ltb_ge in E2. lia.
Qed.

Lemma Sub_range (a b : Time.t) : Time.minDuration <= Time.Sub a b <= Time.maxDuration.
Proof.
  unfold Time.Sub, Time.minDuration, Time.maxDuration.
  destruct (_ <? - 2 ^ 63) eqn:E1; [lia|]. apply Z.ltb_ge in E1.
  destruct (2 ^ 63 - 1 <? _) eqn:E2; [lia|]. apply Z.ltb_ge in E2. lia.
Qed.

Lemma Hours_bound (D : Time.Duration) :
  Time.minDuration <= D <= Time.maxDuration ->
  F64.mag 2562048 (Time.Hours D) /\
  (0 <= D -> F64.nonneg (Time.Hours D) = true).
Proof.
  intros HD. unfold Time.Hours, Time.minDuration, Time.maxDuration in *.
  change Time.Hour with 3600000000000 in *.
  assert (Hq : Z.abs (Z.quot D 3600000000000) <= 2562047).
  { rewrite <- Z.quot_abs by lia. change (Z.abs 3600000000000) with 3600000000000.
    rewrite Z.quot_div_nonneg by lia.
    assert (Z.abs D / 3600000000000 < 2562048); [|lia].
    apply Z.div_lt_upper_bound; lia. }
  assert (Hr : Z.abs (Z.rem D 3600000000000) < 3600000000000).
  { pose proof (Z.rem_bound_abs D 3600000000000 ltac:(lia)). lia. }
  pose proof (of_Z_mag_abs (Z.quot D 3600000000000) ltac:(lia)) as Hh.
  pose proof (of_Z_mag_abs (Z.rem D 3600000000000) ltac:(lia)) as Hn.
  change (60 * 60 * 1000000000) with 3600000000000.
  float_const (F64.of_Z 3600000000000).
  match goal with
  | |- context [F64.div ?a (S754_finite false ?mc ?ec)] =>
      destruct (div_mag a 3600000000000 3600000000000 1 mc ec) as [Hf Hfn];
        [ apply (mag_mono (Z.abs (Z.rem D 3600000000000))); [lia | exact Hn]
        | lia | reflexivity | lia | lia | lia | lia | ]
  end.
  match goal with
  | |- F64.mag _ (F64.add ?a ?b) /\ _ =>
      destruct (add_mag a b 2562047 1) as [Hs Hsn];
        [ apply (mag_mono (Z.abs (Z.quot D 3600000000000))); [lia | exact Hh]
        | exact Hf | lia | lia | lia | ]
  end.
  split; [exact Hs|]. intros HD0. apply Hsn.
  - rewrite Z.quot_div_nonneg by lia.
    apply of_Z_mag. split; [apply Z.div_pos; lia|].
    rewrite Z.quot_div_nonneg in Hq by lia. lia.
  - apply Hfn. rewrite Z.rem_mod_nonneg by lia.
    pose proof (Z.mod_pos_bound D 3600000000000 ltac:(lia)).
    apply of_Z_mag. lia.
Qed.

Lemma days_bound (d : Time.t) :
  F64.mag 106752 (days_since_t0 d) /\
  (Time.unixNano t0 <= Time.unixNano d -> F64.nonneg (days_since_t0 d) = true).
Proof.
  unfold days_since_t0.
  destruct (Hours_bound _ (Sub_range d t0)) as [Hh Hhn].
  float_const (F64.of_Z 24).
  match goal with
  | |- context [F64.div ?a (S754_finite false ?mc ?ec)] =>
      destruct (div_mag a 2562048 24 106752 mc ec) as [Hf Hfn];
        [ exact Hh | lia | reflexivity | lia | lia | lia | lia | ]
  end.
  split; [exact Hf|]. intros Hd. apply Hfn, Hhn. now apply since_t0_bounds.
Qed.

Lemma approx_M_bound (t : spec_float) :
  F64.mag 106752 t ->
  F64.mag 3580 (approx_M t) /\
  (F64.nonneg t = true -> F64.nonneg (approx_M t) = true).
Proof.
  intros Ht. unfold approx_M.
  float_const (F64.of_Z 31).
  match goal with
  | |- context [F64.div ?a (S754_finite false ?mc ?ec)] =>
      destruct (div_mag a 106752 31 3444 mc ec) as [Hf Hfn];
        [ exact Ht | lia | reflexivity | lia | lia | lia | lia | ]
  end.
  destruct (of_Z_mag 136) as [Hc Hcn]; [lia|].
  match goal with
  | |- F64.mag _ (F64.add ?a ?b) /\ _ =>
      destruct (add_mag a b 136 3444) as [Hs Hsn]; [exact Hc | exact Hf | lia | lia | lia |]
  end.
  split; [exact Hs | intros Htn; apply Hsn; auto].
Qed.

Lemma knownBuild_values (k b : Z) : map_lookup knownBuild k = Some b -> 0 <= b <= 7258.
Proof.
  unfold knownBuild. cbn [map_lookup].
  repeat match goal with |- context [if ?c then _ else _] => destruct c end;
    intros [= <-]; lia.
Qed.

Lemma approx_B_mag (M : spec_float) :
  F64.mag 3580 M -> F64.mag 200335 (approx_B M).
Proof.
  intros HM. unfold approx_B.
  destruct (map_lookup knownBuild (F64.to_int M)) as [build|] eqn:Hlook.
  - apply knownBuild_values in Hlook.
    destruct (of_Z_mag build ltac:(lia)) as [Hb _].
    apply (mag_mono build); [lia | exact Hb].
  - destruct (of_Z_mag 136 ltac:(lia)) as [Hc _].
    destruct (of_Z_mag 52 ltac:(lia)) as [Hk _].
    destruct (of_Z_mag 7103 ltac:(lia)) as [Hb _].
    pose proof (sub_mag_any M (F64.of_Z 136) 3580 136 HM Hc
                  ltac:(lia) ltac:(lia) ltac:(lia)) as Hs.
    destruct (mul_mag (F64.of_Z 52) (F64.sub M (F64.of_Z 136)) 52 (3580 + 136) Hk Hs
                ltac:(lia) ltac:(lia) ltac:(lia)) as [Hp _].
    destruct (add_mag (F64.of_Z 7103) (F64.mul (F64.of_Z 52) (F64.sub M (F64.of_Z 136)))
                7103 (52 * (3580 + 136)) Hb Hp ltac:(lia) ltac:(lia) ltac:(lia)) as [Hr _].
    exact Hr.
Qed.

Lemma approx_B_nonneg (M : spec_float) :
  F64.mag 3580 M -> F64.nonneg M = true -> F64.nonneg (approx_B M) = true.
Proof.
  intros HM HMn. unfold approx_B.
  destruct (map_lookup knownBuild (F64.to_int M)) as [build|] eqn:Hlook.
  - apply knownBuild_values in Hlook. apply of_Z_mag. lia.
  - destruct (of_Z_mag 136 ltac:(lia)) as [Hc Hcn].
    destruct (of_Z_mag 52 ltac:(lia)) as [Hk Hkn].
    destruct (of_Z_mag 7103 ltac:(lia)) as [Hb Hbn].
    destruct (sub_mag M (F64.of_Z 136) 3580 136 HM Hc ltac:(lia) ltac:(lia) HMn Hcn)
      as [[Hsn Hs]|Hs].
    + destruct (mul_mag (F64.of_Z 52) (F64.sub M (F64.of_Z 136)) 52 3580 Hk Hs
                  ltac:(lia) ltac:(lia) ltac:(lia)) as [Hp Hpn].
      destruct (add_mag (F64.of_Z 7103) (F64.mul (F64.of_Z 52) (F64.sub M (F64.of_Z 136)))
                  7103 (52 * 3580) Hb Hp ltac:(lia) ltac:(lia) ltac:(lia)) as [_ Hrn].
      apply Hrn; auto.
    + destruct (mul_mag (F64.of_Z 52) (F64.sub M (F64.of_Z 136)) 52 136 Hk Hs
                  ltac:(lia) ltac:(lia) ltac:(lia)) as [Hp _].
      revert Hp. generalize (F64.mul (F64.of_Z 52) (F64.sub M (F64.of_Z 136))).
      intros P Hp. float_const (F64.of_Z 7103).
      match goal with
      | |- context [F64.add (S754_finite false ?ma ?ea) P] =>
          destruct (add_dominant ma ea P 7103 (52 * 136)) as [Hrn _];
            [lia | reflexivity | exact Hp | lia | lia |]
      end.
      exact Hrn.
Qed.

Lemma approx_p_bound (t : spec_float) :
  F64.mag 106752 t ->
  F64.mag 106815 (approx_p t) /\
  (F64.nonneg t = true -> F64.nonneg (approx_p t) = true).
Proof.
  intros Ht. unfold approx_p, F64.of_ratio.
  destruct (of_Z_mag 88 ltac:(lia)) as [H88 H88n].
  destruct (of_Z_mag 6255 ltac:(lia)) as [H62 H62n].
  float_const (F64.of_Z 100).
  match goal with
  | |- context [F64.div (F64.of_Z 88) (S754_finite false ?mc ?ec)] =>
      destruct (div_mag (F64.of_Z 88) 88 100 1 mc ec) as [Ha Han];
        [ exact H88 | lia | reflexivity | lia | lia | lia | lia | ];
      destruct (div_mag (F64.of_Z 6255) 6255 100 63 mc ec) as [Hb Hbn];
        [ exact H62 | lia | reflexivity | lia | lia | lia | lia | ];
      set (c88 := F64.div (F64.of_Z 88) (S754_finite false mc ec)) in *;
      set (c62 := F64.div (F64.of_Z 6255) (S754_finite false mc ec)) in *
  end.
  destruct (mul_mag c88 t 1 106752 Ha Ht ltac:(lia) ltac:(lia) ltac:(lia)) as [Hm Hmn].
  destruct (add_mag (F64.mul c88 t) c62 (1 * 106752) 63 Hm Hb ltac:(lia) ltac:(lia) ltac:(lia))
    as [Hs Hsn].
  destruct (Round_mag (F64.add (F64.mul c88 t) c62) (1 * 106752 + 63) Hs ltac:(lia))
    as [Hr Hrn].
  split; [exact Hr | intros Htn; apply Hrn, Hsn; auto].
Qed.

(** for every date the three computed components stay far inside the range
    of [int]: no conversion overflows *)
Lemma components_in_range (d : Time.t) :
  Z.abs (F64.to_int (approx_M (days_since_t0 d))) <= 3580 /\
  Z.abs (F64.to_int (approx_B (approx_M (days_since_t0 d)))) <= 200335 /\
  Z.abs (F64.to_int (approx_p (days_since_t0 d))) <= 106815.
Proof.
  destruct (days_bound d) as [Ht _].
  destruct (approx_M_bound _ Ht) as [HM _].
  pose proof (approx_B_mag _ HM) as HB.
  destruct (approx_p_bound _ Ht) as [Hp _].
  repeat split; apply to_int_abs; auto; unfold F64.maxInt64; lia.
Qed.

(** the three computed components are non-negative from the anchor date on *)
Lemma components_nonneg (d : Time.t) :
  Time.unixNano t0 <= Time.unixNano d ->
  0 <= F64.to_int (approx_M (days_since_t0 d)) /\
  0 <= F64.to_int (approx_B (approx_M (days_since_t0 d))) /\
  0 <= F64.to_int (approx_p (days_since_t0 d)).
Proof.
  intros Hd. destruct (days_bound d) as [Ht Htn]. specialize (Htn Hd).
  destruct (approx_M_bound _ Ht) as [HM HMn]. specialize (HMn Htn).
  pose proof (approx_B_mag _ HM) as HB.
  pose proof (approx_B_nonneg _ HM HMn) as HBn.
  destruct (approx_p_bound _ Ht) as [Hp Hpn]. specialize (Hpn Htn).
  repeat split;
    match goal with
    | |- 0 <= F64.to_int ?f =>
        eapply (proj1 (to_int_bound f _ ltac:(eassumption) ltac:(assumption)
                         ltac:(unfold F64.maxInt64; lia)))
    end.
Qed.
(* ===================================================================== *)
(** * Facts about strings and [fmt] *)
(* ===================================================================== *)

Section StrFacts.

Import Str.

Lemma digit_not_dot c : is_digit c = true -> Ascii.eqb c "." = false.
Proof.
  unfold is_digit. intros H. destruct (Ascii.eqb_spec c "."); [subst; discriminate | reflexivity].
Qed.

Lemma digit_not_minus c : is_digit c = true -> Ascii.eqb c "-" = false.
Proof.
  unfold is_digit. intros H. destruct (Ascii.eqb_spec c "-"); [subst; discriminate | reflexivity].
Qed.

Lemma all_digits_no_dot s : all_digits s = true -> no_dot s = true.
Proof.
  induction s as [|c r IH]; simpl; [reflexivity|].
  intros [Hc Hr]%andb_prop. rewrite (digit_not_dot c Hc). simpl. auto.
Qed.

Lemma all_digits_uint (d : Decimal.uint) : all_digits (NilEmpty.string_of_uint d) = true.
Proof. induction d; simpl; auto. Qed.

Lemma is_uint_string_of_uint (d : Decimal.uint) : is_uint (NilZero.string_of_uint d) = true.
Proof.
  destruct d; try reflexivity; unfold NilZero.string_of_uint;
    simpl; apply all_digits_uint.
Qed.

Lemma is_uint_all_digits s : is_uint s = true -> all_digits s = true.
Proof. destruct s; [discriminate | auto]. Qed.

Lemma is_uint_is_int s : is_uint s = true -> is_int s = true.
Proof.
  destruct s as [|c r]; [discriminate|]. intros H. unfold is_int.
  assert (Hc : is_digit c = true) by (simpl in H; apply andb_prop in H; tauto).
  rewrite (digit_not_minus c Hc). exact H.
Qed.

(** what [%d] prints is a decimal integer without a dot *)
Lemma itoa_is_int z : is_int (itoa z) = true.
Proof.
  unfold itoa. destruct z as [|p|p]; unfold Z.to_int, NilZero.string_of_int.
  - reflexivity.
  - apply is_uint_is_int, is_uint_string_of_uint.
  - unfold is_int. simpl. apply is_uint_string_of_uint.
Qed.

Lemma itoa_nonneg_is_uint z : 0 <= z -> is_uint (itoa z) = true.
Proof.
  intros Hz. unfold itoa. destruct z as [|p|p]; [reflexivity | | lia].
  apply is_uint_string_of_uint.
Qed.

Lemma itoa_neg_not_uint z : z < 0 -> is_uint (itoa z) = false.
Proof.
  intros Hz. destruct z as [|p|p]; try lia. unfold itoa, Z.to_int, NilZero.string_of_int.
  reflexivity.
Qed.

Lemma is_int_no_dot s : is_int s = true -> no_dot s = true.
Proof.
  destruct s as [|c r]; [discriminate|]. unfold is_int.
  destruct (Ascii.eqb_spec c "-") as [->|Hne]; intros H.
  - simpl. apply all_digits_no_dot, is_uint_all_digits, H.
  - apply all_digits_no_dot, is_uint_all_digits, H.
Qed.

Lemma itoa_no_dot z : no_dot (itoa z) = true.
Proof. apply is_int_no_dot, itoa_is_int. Qed.

Lemma split_dot_aux_app a r cur :
  no_dot a = true ->
  split_dot_aux (a ++ String "." r) cur = cur a :: split_dot_aux r (fun x => x).
Proof.
  revert cur. induction a as [|c a IH]; intros cur; simpl.
  - reflexivity.
  - intros [Hc Ha]%andb_prop. apply negb_true_iff in Hc. rewrite Hc.
    rewrite IH by assumption. reflexivity.
Qed.

Lemma split_dot_aux_last a cur :
  no_dot a = true -> split_dot_aux a cur = [cur a].
Proof.
  revert cur. induction a as [|c a IH]; intros cur; simpl.
  - reflexivity.
  - intros [Hc Ha]%andb_prop. apply negb_true_iff in Hc. rewrite Hc.
    rewrite IH by assumption. reflexivity.
Qed.

(** the components of four dot-free strings joined by dots *)
Lemma split_dot_four a b c d :
  no_dot a = true -> no_dot b = true -> no_dot c = true -> no_dot d = true ->
  split_dot (a ++ "." ++ b ++ "." ++ c ++ "." ++ d) = [a; b; c; d].
Proof.
  intros Ha Hb Hc Hd. unfold split_dot.
  change ("." ++ b ++ "." ++ c ++ "." ++ d) with (String "." (b ++ "." ++ c ++ "." ++ d)).
  rewrite split_dot_aux_app by assumption.
  change ("." ++ c ++ "." ++ d) with (String "." (c ++ "." ++ d)).
  rewrite split_dot_aux_app by assumption.
  change ("." ++ d) with (String "." d).
  rewrite split_dot_aux_app by assumption.
  rewrite split_dot_aux_last by assumption. reflexivity.
Qed.

End StrFacts.

Lemma append_nil_r (s : string) : s ++ "" = s.
Proof.
  induction s as [|c r IH]; [reflexivity|].
  change (String c (r ++ "") = String c r). now rewrite IH.
Qed.

(** the text [approximateVersionForDate] prints, component by component *)
Lemma approximateVersionForDate_eq d :
  approximateVersionForDate d =
  Str.itoa (F64.to_int (approx_M (days_since_t0 d))) ++ "." ++ "0" ++ "." ++
  Str.itoa (F64.to_int (approx_B (approx_M (days_since_t0 d)))) ++ "." ++
  Str.itoa (F64.to_int (approx_p (days_since_t0 d))).
Proof.
  unfold approximateVersionForDate. cbn [Fmt.Sprintf Fmt.verb_d].
  rewrite append_nil_r. reflexivity.
Qed.

Lemma approximateVersionForDate_signed d :
  signed_version (approximateVersionForDate d) = true.
Proof.
  rewrite approximateVersionForDate_eq. unfold signed_version.
  rewrite split_dot_four; try apply itoa_no_dot; try reflexivity.
  rewrite !itoa_is_int. reflexivity.
Qed.


(** an approximated version starts with a digit or a minus sign, never with
    an opening bracket *)
Lemma is_int_first_char (s : string) :
  Str.is_int s = true -> exists c r, s = String c r /\ c <> "["%char.
Proof.
  destruct s as [|c r]; [discriminate|]. intros H. exists c, r. split; [reflexivity|].
  intros ->. discriminate.
Qed.

Lemma approximateVersionForDate_first_char d :
  exists c r, approximateVersionForDate d = String c r /\ c <> "["%char.
Proof.
  rewrite approximateVersionForDate_eq.
  destruct (is_int_first_char _ (itoa_is_int (F64.to_int (approx_M (days_since_t0 d)))))
    as (c & r & -> & Hc).
  match goal with |- exists _ _, String c r ++ ?x = _ /\ _ => exists c, (r ++ x) end.
  split; [reflexivity | exact Hc].
Qed.

Lemma append_cancel_l (s a b : string) : s ++ a = s ++ b -> a = b.
Proof.
  induction s as [|c r IH]; [trivial|].
  change (String c (r ++ a) = String c (r ++ b) -> a = b). intros [= H]. auto.
Qed.

(** the Chrome template with one operand *)
Lemma Sprintf_chromeUATemplate (a : Fmt.arg) :
  Fmt.Sprintf chromeUATemplate [a]
  = "Mozilla/5.0 (Windows NT 10.0; Win64; x64) AppleWebKit/537.36 (KHTML, like Gecko) Chrome/"
    ++ Fmt.verb_s a ++ " Safari/537.36".
Proof. reflexivity. Qed.

(* ===================================================================== *)
(** * The approximated list and the acquisition *)
(* ===================================================================== *)

Section ClockFacts.

Variable AddDate : Time.t -> Z -> Z -> Z -> Time.t.

(** the five versions of [approximateVersions], in order *)
Lemma approximateVersions_eq (now : nat -> Time.t) :
  approximateVersions AddDate now =
  [approximateVersionForDate (AddDate (now 0%nat) 0 0 0);
   approximateVersionForDate (AddDate (now 1%nat) 0 0 (-7));
   approximateVersionForDate (AddDate (now 2%nat) 0 0 (-14));
   approximateVersionForDate (AddDate (now 3%nat) 0 0 (-21));
   approximateVersionForDate (AddDate (now 4%nat) 0 0 (-28))].
Proof. reflexivity. Qed.

Lemma approximateVersions_nth (now : nat -> Time.t) (i : nat) :
  (i < 5)%nat ->
  nth_error (approximateVersions AddDate now) i =
  Some (approximateVersionForDate (AddDate (now i) 0 0 (- (7 * Z.of_nat i)))).
Proof.
  intros Hi. rewrite approximateVersions_eq.
  destruct i as [|[|[|[|[|i]]]]]; try reflexivity. lia.
Qed.

Lemma updateVersions_cases (g : Generator) (sel : select_case) (now : nat -> Time.t) :
  snd (updateVersions AddDate g sel now) = None /\
  match sel with
  | recvResult vs => versions (fst (updateVersions AddDate g sel now)) = vs
  | recvAllNetworkDone | recvCtxDone =>
      versions (fst (updateVersions AddDate g sel now)) = approximateVersions AddDate now
  end.
Proof. destruct sel; split; reflexivity. Qed.

(** every list on the channel was returned by a fetcher *)
Lemma race_chan_from_fetchers google microsoft st :
  race_reach google microsoft st ->
  forall vs, In vs (resultsChan st) -> google = FetchOk vs \/ microsoft = FetchOk vs.
Proof.
  induction 1 as [|st st' Hreach IH Hstep]; [intros vs []|].
  destruct Hstep as [st chan Hrun Hend|st chan Hrun Hend|st Hg Hm|st];
    cbn [resultsChan]; try exact IH.
  - destruct Hend as [Herr|vs' Hok|vs' Hok Hdone]; try exact IH.
    intros vs Hin. apply in_app_iff in Hin as [Hin|[<-|[]]]; [now apply IH | now left].
  - destruct Hend as [Herr|vs' Hok|vs' Hok Hdone]; try exact IH.
    intros vs Hin. apply in_app_iff in Hin as [Hin|[<-|[]]]; [now apply IH | now right].
Qed.

(** whatever the fetchers do, the race can go on to a state where the
    [select] fires: the deadline comes *)
Lemma race_select_fires google microsoft st :
  race_reach google microsoft st ->
  exists st' sel, race_reach google microsoft st' /\ select_ready st' sel.
Proof.
  intros Hreach. eexists _, recvCtxDone. split.
  - eapply reach_step; [exact Hreach | apply step_deadline].
  - apply ready_ctx. reflexivity.
Qed.

(** C1: every call of [updateVersions] returns [nil], whatever the two
    fetchers return and however the race goes.  The list it installs is
    the list of a fetcher that succeeded or the approximated list, and it is
    the approximated list when both fetchers fail and whenever the [select]
    fires on [allNetworkDone] or on the deadline.  The approximated list has
    five entries, the [i]-th computed from the clock moved back by [i]
    weeks. *)
Theorem updateVersions_never_fails (google microsoft : fetch_outcome) (g : Generator)
    (now : nat -> Time.t) (res : Generator * error) :
  updateVersions_run AddDate google microsoft g now res ->
  snd res = None /\
  (versions (fst res) = approximateVersions AddDate now \/
   google = FetchOk (versions (fst res)) \/
   microsoft = FetchOk (versions (fst res))) /\
  (google = FetchErr -> microsoft = FetchErr ->
   versions (fst res) = approximateVersions AddDate now) /\
  (res = updateVersions AddDate g recvAllNetworkDone now \/
   res = updateVersions AddDate g recvCtxDone now ->
   versions (fst res) = approximateVersions AddDate now) /\
  length (approximateVersions AddDate now) = 5%nat /\
  (forall i, (i < 5)%nat ->
     nth_error (approximateVersions AddDate now) i =
     Some (approximateVersionForDate (AddDate (now i) 0 0 (- (7 * Z.of_nat i))))).
Proof.
  intros Hrun. destruct Hrun as [st sel Hreach Hready].
  destruct (updateVersions_cases g sel now) as [Herr Hsel].
  split; [exact Herr|].
  assert (Hfrom : versions (fst (updateVersions AddDate g sel now))
                  = approximateVersions AddDate now \/
                  google = FetchOk (versions (fst (updateVersions AddDate g sel now))) \/
                  microsoft = FetchOk (versions (fst (updateVersions AddDate g sel now)))).
  { destruct Hready as [vs rest Hchan|Hall|Hctx]; [|now left|now left].
    right. rewrite Hsel.
    apply (race_chan_from_fetchers google microsoft st Hreach). rewrite Hchan. now left. }
  split; [exact Hfrom|]. split; [|split; [|split]].
  - intros Hg Hm. destruct Hfrom as [H|[H|H]]; [exact H | congruence | congruence].
  - intros [->| ->]; reflexivity.
  - reflexivity.
  - intros i Hi. now apply approximateVersions_nth.
Qed.

(** C10: with an empty list of versions [Get] does not panic and draws no
    random number; it returns the Chrome template where the whole
    approximated list, printed as one bracketed text with single spaces,
    stands where the version goes; this is not the template filled with any
    single one of the approximated versions. *)
Theorem Get_empty_versions (g : Generator) (now : nat -> Time.t) (r : Rand.source) :
  versions g = [] ->
  Get AddDate g now r =
  Some ("Mozilla/5.0 (Windows NT 10.0; Win64; x64) AppleWebKit/537.36 (KHTML, like Gecko) Chrome/"
        ++ ("[" ++ Str.join " "
                     [approximateVersionForDate (AddDate (now 0%nat) 0 0 0);
                      approximateVersionForDate (AddDate (now 1%nat) 0 0 (-7));
                      approximateVersionForDate (AddDate (now 2%nat) 0 0 (-14));
                      approximateVersionForDate (AddDate (now 3%nat) 0 0 (-21));
                      approximateVersionForDate (AddDate (now 4%nat) 0 0 (-28))]
                ++ "]")
        ++ " Safari/537.36", r) /\
  (forall v : string,
     In v (approximateVersions AddDate now) ->
     Get AddDate g now r <> Some (Fmt.Sprintf chromeUATemplate [Fmt.AStr v], r)).
Proof.
  intros Hv.
  assert (HG : Get AddDate g now r
               = Some (Fmt.Sprintf chromeUATemplate [Fmt.AStrs (approximateVersions AddDate now)], r)).
  { unfold Get. rewrite Hv. reflexivity. }
  split.
  - rewrite HG, approximateVersions_eq. reflexivity.
  - intros v Hin. rewrite HG. intros Heq.
    assert (Hs : Fmt.Sprintf chromeUATemplate [Fmt.AStrs (approximateVersions AddDate now)]
                 = Fmt.Sprintf chromeUATemplate [Fmt.AStr v]) by congruence.
    rewrite !Sprintf_chromeUATemplate in Hs. apply append_cancel_l in Hs.
    assert (Hc : exists c r', v = String c r' /\ c <> "["%char).
    { rewrite approximateVersions_eq in Hin. cbn [In] in Hin.
      destruct Hin as [<-|[<-|[<-|[<-|[<-|[]]]]]];
        apply approximateVersionForDate_first_char. }
    destruct Hc as (c & r' & -> & Hc). apply Hc.
    cbn [Fmt.verb_s] in Hs.
    change (String "[" ((Str.join " " (approximateVersions AddDate now) ++ "]") ++ " Safari/537.36")
            = String c (r' ++ " Safari/537.36")) in Hs.
    now inversion Hs.
Qed.

End ClockFacts.

(* ===================================================================== *)
(** * Crawler headers *)
(* ===================================================================== *)

Lemma GetCrawlerHeaders_latest g now ct :
  GetCrawlerHeaders g now ct = getCrawlerHeadersWithVersion ct (latest_version g now).
Proof. unfold GetCrawlerHeaders, latest_version. destruct (versions g); reflexivity. Qed.

Lemma crawler_user_agent ct v :
  getCrawlerHeadersWithVersion ct v !! "user-agent" =
  Some (if ct =? GoogleBot then Fmt.Sprintf googleBotUATemplate [Fmt.AStr v]
        else if ct =? BingBot then Fmt.Sprintf bingBotUATemplate [Fmt.AStr v]
        else if ct =? YandexBot then yandexBotUA
        else Fmt.Sprintf googleBotUATemplate [Fmt.AStr v]).
Proof.
  unfold getCrawlerHeadersWithVersion.
  destruct (ct =? GoogleBot); [|destruct (ct =? BingBot); [|destruct (ct =? YandexBot)]];
    apply lookup_insert_eq.
Qed.

Lemma crawler_from ct v :
  getCrawlerHeadersWithVersion ct v !! "from" =
  if (ct =? BingBot) || (ct =? YandexBot) then None else Some "googlebot(at)google.com".
Proof.
  unfold getCrawlerHeadersWithVersion.
  destruct (ct =? GoogleBot) eqn:E0.
  - apply Z.eqb_eq in E0. subst ct. cbn [Z.eqb GoogleBot BingBot YandexBot orb].
    rewrite lookup_insert_ne by discriminate. apply lookup_insert_eq.
  - destruct (ct =? BingBot); [|destruct (ct =? YandexBot)]; cbn [orb].
    + rewrite !lookup_insert_ne by discriminate. apply lookup_empty.
    + rewrite !lookup_insert_ne by discriminate. apply lookup_empty.
    + rewrite lookup_insert_ne by discriminate. apply lookup_insert_eq.
Qed.

(** C9: for every generator and clock, the Yandex headers carry the fixed
    Yandex user agent, whatever the versions, and no [from] key; the Google
    headers carry a [from] key; the Google and Bing user agents are their
    templates around the first version of the list, or around the version
    approximated for the current date when the list is empty. *)
Theorem crawler_headers_by_type (g : Generator) (now : Time.t) :
  GetCrawlerHeaders g now YandexBot !! "user-agent"
    = Some "Mozilla/5.0 (compatible; YandexBot/3.0; +http://yandex.com/bots)" /\
  GetCrawlerHeaders g now YandexBot !! "from" = None /\
  GetCrawlerHeaders g now GoogleBot !! "from" = Some "googlebot(at)google.com" /\
  (let v := match versions g with
            | [] => approximateVersionForDate now
            | head :: _ => head
            end in
   GetCrawlerHeaders g now GoogleBot !! "user-agent"
     = Some ("Mozilla/5.0 AppleWebKit/537.36 (KHTML, like Gecko; compatible; Googlebot/2.1; +http://www.google.com/bot.html) Chrome/"
             ++ v ++ " Safari/537.36") /\
   GetCrawlerHeaders g now BingBot !! "user-agent"
     = Some ("Mozilla/5.0 AppleWebKit/537.36 (KHTML, like Gecko; compatible; bingbot/2.0; +http://www.bing.com/bingbot.htm) Chrome/"
             ++ v ++ " Safari/537.36")).
Proof.
  rewrite !GetCrawlerHeaders_latest, !crawler_user_agent, !crawler_from.
  fold (latest_version g now). repeat split; reflexivity.
Qed.

(** Outside the three named values the library builds the Google headers. *)
Lemma crawler_default ct v :
  ct <> GoogleBot -> ct <> BingBot -> ct <> YandexBot ->
  getCrawlerHeadersWithVersion ct v = getCrawlerHeadersWithVersion GoogleBot v.
Proof.
  intros H0 H1 H2. unfold getCrawlerHeadersWithVersion.
  apply Z.eqb_neq in H0, H1, H2. rewrite H0, H1, H2. reflexivity.
Qed.

Lemma copyToBuffer_nonneg data len : 0 <= fst (CWrapper.copyToBuffer data len).
Proof.
  unfold CWrapper.copyToBuffer, CWrapper.maxCInt.
  repeat match goal with |- context [if ?b then _ else _] => destruct b end;
    cbn [fst]; lia.
Qed.

(** C3, as the code has it: the library operation has no failing outcome;
    it answers every crawler type with a map that has a user agent, and a
    type outside Google, Bing and Yandex with the Google map.  The exported
    wrapper is where a type is refused: its result is [ErrUnknownCrawler]
    exactly when the generator is initialised and the type is outside
    [0..2], and it is an error code exactly when the generator is missing,
    the type is outside [0..2] or the JSON encoding fails. *)
Theorem crawler_type_policy (g : Generator) (now : Time.t) (ct : CrawlerType)
    (marshal : gmap string string -> option string) (og : option Generator) (len : Z) :
  is_Some (GetCrawlerHeaders g now ct !! "user-agent") /\
  (ct < 0 \/ 2 < ct -> GetCrawlerHeaders g now ct = GetCrawlerHeaders g now GoogleBot) /\
  (fst (CWrapper.GetCrawlerHeaders marshal og now ct len) = CWrapper.ErrUnknownCrawler
     <-> og <> None /\ (ct < 0 \/ 2 < ct)) /\
  (fst (CWrapper.GetCrawlerHeaders marshal og now ct len) < 0
     <-> og = None \/ (ct < 0 \/ 2 < ct) \/
         (exists g0, og = Some g0 /\ marshal (GetCrawlerHeaders g0 now ct) = None)).
Proof.
  split; [|split; [|split]].
  - rewrite GetCrawlerHeaders_latest, crawler_user_agent. eauto.
  - intros Hout. rewrite !GetCrawlerHeaders_latest.
    apply crawler_default; unfold GoogleBot, BingBot, YandexBot; lia.
  - unfold CWrapper.GetCrawlerHeaders. destruct og as [g0|].
    + destruct ((ct <? 0) || (2 <? ct)) eqn:E.
      * cbn [fst]. split; [intros _|reflexivity]. split; [discriminate|].
        apply orb_true_iff in E as [E|E]; [left|right]; lia.
      * apply orb_false_iff in E as [E1 E2].
        split.
        -- intros Hc. exfalso. destruct (marshal _).
           ++ pose proof (copyToBuffer_nonneg s len) as Hn. rewrite Hc in Hn.
              unfold CWrapper.ErrUnknownCrawler in Hn. lia.
           ++ cbn [fst] in Hc. discriminate.
        -- intros [_ Hout]. lia.
    + cbn [fst]. split; [discriminate|]. intros [Hne _]. congruence.
  - unfold CWrapper.GetCrawlerHeaders. destruct og as [g0|].
    + destruct ((ct <? 0) || (2 <? ct)) eqn:E.
      * cbn [fst]. unfold CWrapper.ErrUnknownCrawler. split; [intros _|lia].
        right. left. apply orb_true_iff in E as [E|E]; [left|right]; lia.
      * apply orb_false_iff in E as [E1 E2].
        destruct (marshal (GetCrawlerHeaders g0 now ct)) eqn:Em.
        -- pose proof (copyToBuffer_nonneg s len) as Hn. split; [lia|].
           intros [Hc|[Hc|[g1 [Hg Hc]]]]; [discriminate|lia|].
           injection Hg as <-. congruence.
        -- cbn [fst]. unfold CWrapper.ErrJSONMarshal. split; [intros _|lia].
           right. right. eauto.
    + cbn [fst]. unfold CWrapper.ErrNotInitialized. split; [intros _; now left|lia].
Qed.

(* ===================================================================== *)
(** * The random source *)
(* ===================================================================== *)

Lemma bind_Some {A B} (c : Rand.M A) (k : A -> Rand.M B) r b r2 :
  Rand.bind c k r = Some (b, r2) <->
  exists a r1, c r = Some (a, r1) /\ k a r1 = Some (b, r2).
Proof.
  unfold Rand.bind. split.
  - destruct (c r) as [[a r1]|]; [eauto | discriminate].
  - intros (a & r1 & -> & H). exact H.
Qed.

Lemma nth_error_Some_In {A} (l : list A) i :
  (i < length l)%nat -> exists a, nth_error l i = Some a /\ In a l.
Proof.
  intros Hi. destruct (nth_error l i) as [a|] eqn:E.
  - exists a. split; [reflexivity|]. eapply nth_error_In; eauto.
  - apply nth_error_None in E. lia.
Qed.

(** a random element of a non-empty list: a draw, then an indexing that is
    always in range *)
Lemma draw_from_list {A} (l : list A) (r : Rand.source) :
  l <> [] ->
  exists a, In a l /\
    Rand.bind (Rand.IntN (length l)) (fun i => Rand.index l i) r = Some (a, Rand.tail r).
Proof.
  intros Hl. destruct l as [|x l]; [congruence|].
  unfold Rand.bind, Rand.IntN.
  set (n := length (x :: l)). assert (Hn : n <> O) by (subst n; discriminate).
  destruct n as [|n'] eqn:En; [congruence|].
  destruct (nth_error_Some_In (x :: l) (Nat.modulo (r O) (S n'))) as (a & Ha & Hin).
  { change (length (x :: l)) with n. rewrite En.
    apply Nat.mod_upper_bound. discriminate. }
  exists a. split; [assumption|]. unfold Rand.index. rewrite Ha. reflexivity.
Qed.

Lemma draw_from_list_k {A B} (l : list A) (k : A -> Rand.M B) (r : Rand.source) :
  l <> [] ->
  exists a, In a l /\
    Rand.bind (Rand.IntN (length l)) (fun i => Rand.bind (Rand.index l i) k) r
    = k a (Rand.tail r).
Proof.
  intros Hl. destruct (draw_from_list l r Hl) as (a & Hin & Ha).
  exists a. split; [assumption|].
  unfold Rand.bind in *. destruct (Rand.IntN (length l) r) as [[i r1]|]; [|discriminate].
  destruct (Rand.index l i r1) as [[a' r2]|]; [|discriminate].
  injection Ha as -> ->. reflexivity.
Qed.

Lemma byte_at_lt s i r :
  (i < String.length s)%nat -> exists c, byte_at s i r = Some (c, r).
Proof.
  revert i. induction s as [|c s IH]; intros i Hi; simpl in Hi; [lia|].
  unfold byte_at. destruct i as [|i].
  - exists c. reflexivity.
  - simpl. apply IH. lia.
Qed.

Lemma grease_loop_total base sb r :
  exists brand r1, grease_loop base sb r = Some (brand, r1).
Proof.
  revert sb r. induction base as [|c base IH]; intros sb r.
  - simpl. unfold Rand.ret. eauto.
  - simpl. destruct (Ascii.eqb c " ").
    + unfold Rand.bind, Rand.IntN.
      change (String.length greaseChars) with 17%nat.
      destruct (byte_at_lt greaseChars (Nat.modulo (r O) 17) (Rand.tail r)) as [ch Hch].
      { change (String.length greaseChars) with 17%nat.
        apply Nat.mod_upper_bound. discriminate. }
      rewrite Hch. apply IH.
    + apply IH.
Qed.

Lemma generateGreaseBrand_total r :
  exists gb r1, generateGreaseBrand r = Some (gb, r1).
Proof.
  unfold generateGreaseBrand.
  destruct (draw_from_list_k greaseVersions
              (fun version => Rand.bind (grease_loop "Not A Brand" "")
                                (fun brand => Rand.ret (brand, version))) r)
    as (v & _ & Hv); [discriminate|].
  rewrite Hv. unfold Rand.bind.
  destruct (grease_loop_total "Not A Brand" "" (Rand.tail r)) as (brand & r1 & Hb).
  rewrite Hb. unfold Rand.ret. eauto.
Qed.

(* ===================================================================== *)
(** * [Get] and [parseUserAgent] *)
(* ===================================================================== *)

Section GetFacts.

Variable AddDate : Time.t -> Z -> Z -> Z -> Time.t.

(** [Get] never panics, and what it returns starts as the templates do *)
Lemma Get_shape (g : Generator) (now : nat -> Time.t) (r : Rand.source) :
  exists x r1, Get AddDate g now r = Some (uaPrefix ++ x, r1).
Proof.
  unfold Get. destruct (length (versions g) =? 0)%nat eqn:E.
  - unfold Rand.ret. eexists _, r. reflexivity.
  - apply Nat.eqb_neq in E.
    assert (Hne : versions g <> []) by (intros H; rewrite H in E; apply E; reflexivity).
    destruct (draw_from_list_k (versions g)
      (fun randomVersion =>
         Rand.bind (Rand.IntN 2) (fun coin =>
           if (coin =? 0)%nat
           then Rand.ret (Fmt.Sprintf chromeUATemplate [Fmt.AStr randomVersion])
           else Rand.ret (Fmt.Sprintf edgeUATemplate
                            [Fmt.AStr randomVersion; Fmt.AStr randomVersion]))) r Hne)
      as (v & _ & Hv).
    rewrite Hv. unfold Rand.bind, Rand.IntN, Rand.ret.
    destruct (_ =? 0)%nat; eexists _, _; reflexivity.
Qed.

End GetFacts.

Lemma platform_of_prefix x : Re.uaPlatformRegex (uaPrefix ++ x) = Some "Windows NT 10.0".
Proof. reflexivity. Qed.

(** on every text that starts as the templates do, [parseUserAgent] finds
    the platform and does not panic *)
Lemma parseUserAgent_prefix x :
  exists info, parseUserAgent (uaPrefix ++ x) = Some info /\ Platform info = "Windows".
Proof.
  unfold parseUserAgent. rewrite platform_of_prefix.
  eexists. split; reflexivity.
Qed.

(* ===================================================================== *)
(** * [GetHeaders] *)
(* ===================================================================== *)

Lemma lift_Some {A} (o : option A) r a r1 : lift o r = Some (a, r1) -> o = Some a /\ r1 = r.
Proof. destruct o; unfold lift, Rand.ret, Rand.panic; intros [=]; subst; auto. Qed.

Lemma index_Some_In {A} (l : list A) i r a r1 :
  Rand.index l i r = Some (a, r1) -> In a l /\ r1 = r.
Proof.
  unfold Rand.index. destruct (nth_error l i) eqn:E; unfold Rand.ret, Rand.panic; intros [=].
  subst. split; [eapply nth_error_In; eauto | reflexivity].
Qed.

(** the value of [referer] *)
Lemma referer_eq s h : Fmt.Sprintf "%s://%s" [Fmt.AStr s; Fmt.AStr h] = s ++ "://" ++ h.
Proof. cbn [Fmt.Sprintf Fmt.verb_s]. now rewrite append_nil_r. Qed.

Lemma append_not_empty s c t : String.eqb (s ++ String c t) "" = false.
Proof. destruct s; reflexivity. Qed.

Lemma quotedFormat_eq x : Fmt.Sprintf quotedFormat [Fmt.AStr x] = quoted x.
Proof. reflexivity. Qed.

Section HeaderFacts.

Variable AddDate : Time.t -> Z -> Z -> Z -> Time.t.
Variable url_Parse : string -> option URL.

Lemma GetHeaders_inv g now targetURL r h r' :
  GetHeaders AddDate url_Parse g now targetURL r = Some (h, r') ->
  exists ua secChUa info u res hs ws,
    url_in_use url_Parse targetURL = Some u /\
    In res commonResolutions /\
    In hs viewportHeightSubtractions /\
    In ws viewportWidthSubtractions /\
    h = headers_for url_Parse targetURL ua secChUa info u res hs ws.
Proof.
  unfold GetHeaders. intros H.
  apply bind_Some in H as (ua & r1 & _ & H).
  apply bind_Some in H as (info & r2 & _ & H).
  apply bind_Some in H as (u & r3 & Hu & H).
  apply lift_Some in Hu as [Hu _].
  apply bind_Some in H as ([gbrand gver] & r4 & _ & H).
  apply bind_Some in H as (ri & r5 & _ & H).
  apply bind_Some in H as (res & r6 & Hres & H).
  apply index_Some_In in Hres as [Hres _].
  apply bind_Some in H as (hi & r7 & _ & H).
  apply bind_Some in H as (hs & r8 & Hhs & H).
  apply index_Some_In in Hhs as [Hhs _].
  apply bind_Some in H as (wi & r9 & _ & H).
  apply bind_Some in H as (ws & r10 & Hws & H).
  apply index_Some_In in Hws as [Hws _].
  unfold Rand.ret in H. injection H as <- _.
  eexists ua, _, info, u, res, hs, ws.
  split; [|split; [|split; [|split]]]; try assumption.
  - unfold url_in_use. destruct (parse_target url_Parse targetURL); assumption.
  - unfold headers_for. rewrite (append_nil_r (Host u)).
    destruct (parse_target url_Parse targetURL); cbv iota.
    + rewrite append_not_empty. reflexivity.
    + reflexivity.
Qed.

Lemma GetHeaders_total g now targetURL r :
  url_in_use url_Parse targetURL <> None ->
  exists h r', GetHeaders AddDate url_Parse g now targetURL r = Some (h, r').
Proof.
  intros Hu. unfold GetHeaders.
  destruct (Get_shape AddDate g now r) as (x & r1 & Hget).
  unfold Rand.bind at 1. rewrite Hget.
  destruct (parseUserAgent_prefix x) as (info & Hinfo & _).
  rewrite Hinfo. unfold lift at 1, Rand.bind at 1, Rand.ret at 1.
  assert (Hu' : exists u, (if match parse_target url_Parse targetURL with
                              | Some _ => true | None => false end
                           then parse_target url_Parse targetURL
                           else url_Parse fallbackURL) = Some u).
  { unfold url_in_use in Hu. destruct (parse_target url_Parse targetURL); [eauto|].
    destruct (url_Parse fallbackURL); [eauto | congruence]. }
  destruct Hu' as [u Hu']. rewrite Hu'.
  unfold lift at 1, Rand.bind at 1, Rand.ret at 1.
  destruct (generateGreaseBrand_total r1) as ([gbrand gver] & r2 & Hgb).
  unfold Rand.bind at 1. rewrite Hgb.
  match goal with
  | |- exists h r', Rand.bind (Rand.IntN (length ?l)) (fun i => Rand.bind (Rand.index ?l i) ?k) ?r0 = _ =>
      destruct (draw_from_list_k l k r0) as (res & _ & Hres); [discriminate|]; rewrite Hres
  end.
  match goal with
  | |- exists h r', Rand.bind (Rand.IntN (length ?l)) (fun i => Rand.bind (Rand.index ?l i) ?k) ?r0 = _ =>
      destruct (draw_from_list_k l k r0) as (hs & _ & Hhs); [discriminate|]; rewrite Hhs
  end.
  match goal with
  | |- exists h r', Rand.bind (Rand.IntN (length ?l)) (fun i => Rand.bind (Rand.index ?l i) ?k) ?r0 = _ =>
      destruct (draw_from_list_k l k r0) as (ws & _ & Hws); [discriminate|]; rewrite Hws
  end.
  unfold Rand.ret. eauto.
Qed.

End HeaderFacts.

(* --------------------------------------------------------------------- *)
(** ** Reading the map *)
(* --------------------------------------------------------------------- *)

Lemma literal_referer ua referer sec info vh vw :
  header_literal ua referer sec info vh vw !! "referer" = Some referer.
Proof.
  unfold header_literal. rewrite !lookup_insert_ne by discriminate.
  apply lookup_insert_eq.
Qed.

Lemma literal_origin ua referer sec info vh vw :
  header_literal ua referer sec info vh vw !! "origin" = None.
Proof.
  unfold header_literal. rewrite !lookup_insert_ne by discriminate.
  apply lookup_empty.
Qed.

Lemma literal_viewport_height ua referer sec info vh vw :
  header_literal ua referer sec info vh vw !! "sec-ch-viewport-height" = Some (quoted vh).
Proof.
  unfold header_literal. rewrite !lookup_insert_ne by discriminate.
  rewrite lookup_insert_eq. reflexivity.
Qed.

Lemma literal_viewport_width ua referer sec info vh vw :
  header_literal ua referer sec info vh vw !! "sec-ch-viewport-width" = Some (quoted vw).
Proof.
  unfold header_literal. rewrite !lookup_insert_ne by discriminate.
  rewrite lookup_insert_eq. reflexivity.
Qed.

Lemma literal_user_agent ua referer sec info vh vw :
  header_literal ua referer sec info vh vw !! "user-agent" = Some ua.
Proof.
  unfold header_literal. rewrite !lookup_insert_ne by discriminate.
  apply lookup_insert_eq.
Qed.

Lemma length_append (s t : string) :
  String.length (s ++ t) = (String.length s + String.length t)%nat.
Proof.
  induction s as [|c s IH]; [reflexivity|].
  change (S (String.length (s ++ t)) = S (String.length s + String.length t)).
  now rewrite IH.
Qed.

Lemma substring_all (s : string) : String.substring 0 (String.length s) s = s.
Proof. induction s as [|c s IH]; [reflexivity|]. simpl. now rewrite IH. Qed.

Lemma substring_append_l (s t : string) :
  String.substring 0 (String.length s) (s ++ t) = s.
Proof.
  induction s as [|c s IH].
  - destruct t; reflexivity.
  - change (String c (String.substring 0 (String.length s) (s ++ t)) = String c s).
    now rewrite IH.
Qed.

Lemma substring_append_r (s t : string) :
  String.substring (String.length s) (String.length t) (s ++ t) = t.
Proof.
  induction s as [|c s IH].
  - apply substring_all.
  - exact IH.
Qed.

Lemma int_of_string_itoa z : NilZero.int_of_string (Str.itoa z) = Some (Z.to_int z).
Proof.
  unfold Str.itoa. apply NilZero.isi.
  - destruct z; simpl; try discriminate.
    intros [= H]. revert H. apply DecimalPos.Unsigned.to_uint_nonnil.
  - destruct z; simpl; try discriminate.
    intros [= H]. revert H. apply DecimalPos.Unsigned.to_uint_nonnil.
Qed.

(** the integer read back from a quoted decimal is the integer printed *)
Lemma header_int_quoted z : header_int (quoted (Str.itoa z)) = Some z.
Proof.
  unfold quoted, header_int.
  change (dq ++ Str.itoa z ++ dq) with (String "034" (Str.itoa z ++ dq)).
  cbn [Ascii.eqb Bool.eqb]. rewrite length_append.
  change (String.length dq) with 1%nat. rewrite Nat.add_1_r.
  pose proof (substring_append_r (Str.itoa z) dq) as Hr.
  change (String.length dq) with 1%nat in Hr. rewrite Hr.
  rewrite String.eqb_refl, substring_append_l, int_of_string_itoa.
  cbn [option_map]. now rewrite DecimalZ.of_to.
Qed.

Example AddDate_UTC_week :
  AddDate_UTC (Time.Date 2026 3 3 10 20 30 5) 0 0 (-7) = Time.Date 2026 2 24 10 20 30 5.
Proof. vm_compute. reflexivity. Qed.

Example url_Parse_example :
  UrlModel.Parse "https://api.example.com/v1/data" = Some (mkURL "https" "api.example.com")
  /\ UrlModel.Parse fallbackURL = Some (mkURL "https" "www.google.com").
Proof. split; vm_compute; reflexivity. Qed.

(* --------------------------------------------------------------------- *)
(** ** Referer, origin and viewport *)
(* --------------------------------------------------------------------- *)

Section HeaderClaims.

Variable AddDate : Time.t -> Z -> Z -> Z -> Time.t.
Variable url_Parse : string -> option URL.

Lemma headers_for_referer targetURL ua sec info u res hs ws :
  headers_for url_Parse targetURL ua sec info u res hs ws !! "referer"
  = Some (Scheme u ++ "://" ++ Host u).
Proof.
  unfold headers_for. destruct (parse_target url_Parse targetURL).
  - rewrite lookup_insert_ne by discriminate. apply literal_referer.
  - apply literal_referer.
Qed.

Lemma headers_for_origin targetURL ua sec info u res hs ws :
  headers_for url_Parse targetURL ua sec info u res hs ws !! "origin"
  = match parse_target url_Parse targetURL with
    | Some _ => Some (Scheme u ++ "://" ++ Host u)
    | None => None
    end.
Proof.
  unfold headers_for. destruct (parse_target url_Parse targetURL).
  - apply lookup_insert_eq.
  - apply literal_origin.
Qed.

(** C4: [GetHeaders] returns a map for every generator, clock, argument
    list and random source.  Without a target URL (no argument, or an empty
    first argument) and with a target that [url.Parse] refuses, [referer] is
    [https://www.google.com] and the map has no [origin] key; with a target
    that parses, [referer] and [origin] are both its scheme, [://] and its
    host.  What [url.Parse] gives for the fallback constant is the
    hypothesis. *)
Theorem GetHeaders_referer_origin
    (Hfallback : url_Parse fallbackURL = Some (mkURL "https" "www.google.com"))
    (g : Generator) (now : nat -> Time.t) (targetURL : list string) (r : Rand.source) :
  exists h r',
    GetHeaders AddDate url_Parse g now targetURL r = Some (h, r') /\
    let no_target :=
      h !! "referer" = Some "https://www.google.com" /\ h !! "origin" = None in
    match targetURL with
    | [] => no_target
    | target :: _ =>
        if String.eqb target "" then no_target
        else
          match url_Parse target with
          | None => no_target
          | Some u =>
              h !! "referer" = Some (Scheme u ++ "://" ++ Host u) /\
              h !! "origin" = Some (Scheme u ++ "://" ++ Host u)
          end
    end.
Proof.
  destruct (GetHeaders_total AddDate url_Parse g now targetURL r) as (h & r' & Hrun).
  { unfold url_in_use. destruct (parse_target url_Parse targetURL); [discriminate|].
    rewrite Hfallback. discriminate. }
  exists h, r'. split; [exact Hrun|].
  apply GetHeaders_inv in Hrun as (ua & sec & info & u & res & hs & ws & Hu & _ & _ & _ & ->).
  rewrite headers_for_referer, headers_for_origin.
  unfold url_in_use in Hu. unfold parse_target in *.
  destruct targetURL as [|target rest].
  - rewrite Hfallback in Hu. injection Hu as <-. split; reflexivity.
  - destruct (String.eqb target "").
    + rewrite Hfallback in Hu. injection Hu as <-. split; reflexivity.
    + destruct (url_Parse target) as [u'|].
      * injection Hu as <-. split; reflexivity.
      * rewrite Hfallback in Hu. injection Hu as <-. split; reflexivity.
Qed.

(** C5: in the catalog every height subtraction is positive and smaller than
    every height, every width subtraction positive and smaller than every
    width; and every map that [GetHeaders] returns was built from a
    resolution of the catalog and two subtractions such that the integer in
    [sec-ch-viewport-height] is the height less the subtraction, below the
    height, and the integer in [sec-ch-viewport-width] is the width less the
    subtraction, below the width. *)
Theorem viewport_below_resolution :
  (forall res hs ws,
     In res commonResolutions -> In hs viewportHeightSubtractions ->
     In ws viewportWidthSubtractions ->
     0 < hs < Height res /\ 0 < ws < Width res) /\
  (forall g now targetURL r h r',
     GetHeaders AddDate url_Parse g now targetURL r = Some (h, r') ->
     exists res hs ws vh vw,
       In res commonResolutions /\
       In hs viewportHeightSubtractions /\
       In ws viewportWidthSubtractions /\
       h !! "sec-ch-viewport-height" = Some vh /\
       header_int vh = Some (Height res - hs) /\
       h !! "sec-ch-viewport-width" = Some vw /\
       header_int vw = Some (Width res - ws) /\
       0 < Height res - hs < Height res /\
       0 < Width res - ws < Width res).
Proof.
  assert (Hcat : forall res hs ws,
     In res commonResolutions -> In hs viewportHeightSubtractions ->
     In ws viewportWidthSubtractions ->
     0 < hs < Height res /\ 0 < ws < Width res).
  { intros res hs ws Hres Hhs Hws.
    unfold commonResolutions, viewportHeightSubtractions, viewportWidthSubtractions in *.
    cbn [In] in *.
    repeat match goal with H : _ \/ _ |- _ => destruct H as [H|H] end;
      try contradiction; subst; cbn [Height Width]; lia. }
  split; [exact Hcat|].
  intros g now targetURL r h r' Hrun.
  apply GetHeaders_inv in Hrun as (ua & sec & info & u & res & hs & ws & _ & Hres & Hhs & Hws & ->).
  destruct (Hcat res hs ws Hres Hhs Hws) as [Hh Hw].
  exists res, hs, ws, (quoted (Str.itoa (Height res - hs))), (quoted (Str.itoa (Width res - ws))).
  repeat split; try assumption; try lia; try apply header_int_quoted.
  - unfold headers_for. destruct (parse_target url_Parse targetURL).
    + rewrite lookup_insert_ne by discriminate. apply literal_viewport_height.
    + apply literal_viewport_height.
  - unfold headers_for. destruct (parse_target url_Parse targetURL).
    + rewrite lookup_insert_ne by discriminate. apply literal_viewport_width.
    + apply literal_viewport_width.
Qed.

End HeaderClaims.

Lemma GetHeaders_referer_origin_witness :
  exists h r',
    GetHeaders AddDate_UTC UrlModel.Parse demo_generator demo_now
      ["https://api.example.com/v1/data"] demo_rand = Some (h, r') /\
    h !! "referer" = Some "https://api.example.com" /\
    h !! "origin" = Some "https://api.example.com".
Proof.
  exact (GetHeaders_referer_origin AddDate_UTC UrlModel.Parse eq_refl
           demo_generator demo_now ["https://api.example.com/v1/data"] demo_rand).
Defined.

Lemma viewport_below_resolution_witness :
  exists h r',
    GetHeaders AddDate_UTC UrlModel.Parse demo_generator demo_now [] demo_rand = Some (h, r') /\
    exists res hs ws vh vw,
      In res commonResolutions /\
      In hs viewportHeightSubtractions /\
      In ws viewportWidthSubtractions /\
      h !! "sec-ch-viewport-height" = Some vh /\
      header_int vh = Some (Height res - hs) /\
      h !! "sec-ch-viewport-width" = Some vw /\
      header_int vw = Some (Width res - ws) /\
      0 < Height res - hs < Height res /\
      0 < Width res - ws < Width res.
Proof.
  destruct (GetHeaders_total AddDate_UTC UrlModel.Parse demo_generator demo_now [] demo_rand)
    as (h & r' & Hrun).
  { vm_compute. discriminate. }
  exists h, r'. split; [exact Hrun|].
  exact (proj2 (viewport_below_resolution AddDate_UTC UrlModel.Parse)
           demo_generator demo_now [] demo_rand h r' Hrun).
Defined.

(* ===================================================================== *)
(** * The disk cache *)
(* ===================================================================== *)

Section DiskCacheFacts.

Variable json_Unmarshal : string -> option cacheFile.
Variable json_Marshal : cacheFile -> option string.

(** C6: [loadFromDiskCache] answers [false] and returns the generator as it
    was when the file is missing, when reading fails, when the content does
    not decode, when the time since the record's timestamp exceeds the TTL,
    and when the record has no version; whenever it answers [false] the
    generator is unchanged.  In the one remaining case, the file read and
    decoded to a record within the TTL with at least one version, it
    answers [true] and returns the generator with its versions replaced by
    the record's, path and TTL as they were; and it answers [true] in that
    case only. *)
Theorem loadFromDiskCache_outcomes (g : Generator) (fs : FS) (readErr : bool) (now : Time.t) :
  let res := loadFromDiskCache json_Unmarshal g fs readErr now in
  (snd res = false -> fst res = g) /\
  (fs !! diskCachePath g = None -> res = (g, false)) /\
  (readErr = true -> res = (g, false)) /\
  (forall data, fs !! diskCachePath g = Some data ->
     json_Unmarshal data = None -> res = (g, false)) /\
  (forall data cache, fs !! diskCachePath g = Some data ->
     json_Unmarshal data = Some cache ->
     diskCacheTTL g < Since now (Timestamp cache) -> res = (g, false)) /\
  (forall data cache, fs !! diskCachePath g = Some data ->
     json_Unmarshal data = Some cache ->
     Versions cache = [] -> res = (g, false)) /\
  (forall data cache, readErr = false ->
     fs !! diskCachePath g = Some data ->
     json_Unmarshal data = Some cache ->
     Since now (Timestamp cache) <= diskCacheTTL g ->
     Versions cache <> [] ->
     res = (set_versions g (Versions cache), true) /\
     versions (fst res) = Versions cache /\
     diskCachePath (fst res) = diskCachePath g /\
     diskCacheTTL (fst res) = diskCacheTTL g) /\
  (snd res = true ->
     exists data cache,
       readErr = false /\
       fs !! diskCachePath g = Some data /\
       json_Unmarshal data = Some cache /\
       Since now (Timestamp cache) <= diskCacheTTL g /\
       Versions cache <> [] /\
       fst res = set_versions g (Versions cache) /\
       versions (fst res) = Versions cache).
Proof.
  cbv zeta. unfold loadFromDiskCache.
  split; [|split; [|split; [|split; [|split; [|split; [|split]]]]]].
  - destruct readErr; [reflexivity|].
    destruct (fs !! diskCachePath g) as [data|]; [|reflexivity].
    destruct (json_Unmarshal data) as [cache|]; [|reflexivity].
    destruct (diskCacheTTL g <? _); [reflexivity|].
    destruct (length (Versions cache) =? 0)%nat; [reflexivity|discriminate].
  - intros ->. destruct readErr; reflexivity.
  - intros ->. reflexivity.
  - intros data Hf Hd. destruct readErr; [reflexivity|]. now rewrite Hf, Hd.
  - intros data cache Hf Hd Hold. destruct readErr; [reflexivity|]. rewrite Hf, Hd.
    apply Z.ltb_lt in Hold. now rewrite Hold.
  - intros data cache Hf Hd Hempty. destruct readErr; [reflexivity|].
    rewrite Hf, Hd, Hempty. destruct (diskCacheTTL g <? _); reflexivity.
  - intros data cache -> Hf Hd Hfresh Hne. rewrite Hf, Hd.
    apply Z.ltb_ge in Hfresh. rewrite Hfresh.
    destruct (Versions cache) as [|v vs] eqn:Hv; [congruence|].
    cbn [length Nat.eqb]. repeat split; reflexivity.
  - destruct readErr; [discriminate|].
    destruct (fs !! diskCachePath g) as [data|]; [|discriminate].
    destruct (json_Unmarshal data) as [cache|] eqn:Hd; [|discriminate].
    destruct (diskCacheTTL g <? Since now (Timestamp cache)) eqn:Ht; [discriminate|].
    destruct (length (Versions cache) =? 0)%nat eqn:Hl; [discriminate|].
    intros _. exists data, cache. repeat split; try assumption.
    + apply Z.ltb_ge in Ht. exact Ht.
    + intros Hv. rewrite Hv in Hl. discriminate.
Qed.

End DiskCacheFacts.

Example json_model_example :
  JsonModel.Marshal (mkCacheFile (Time.Date 2026 10 31 12 0 0 5000) ["140.0.7339.81"; "a<b"])
  = Some ("{" ++ dq ++ "timestamp" ++ dq ++ ":" ++ dq ++ "2026-10-31T12:00:00.000005Z" ++ dq ++ ","
          ++ dq ++ "versions" ++ dq ++ ":[" ++ dq ++ "140.0.7339.81" ++ dq ++ ","
          ++ dq ++ "a" ++ JsonModel.bs ++ "u003cb" ++ dq ++ "]}")
  /\ option_bind _ _ JsonModel.Unmarshal
       (JsonModel.Marshal (mkCacheFile (Time.Date 2026 10 31 12 0 0 5000) ["140.0.7339.81"; "a<b"]))
     = Some (mkCacheFile (Time.Date 2026 10 31 12 0 0 5000) ["140.0.7339.81"; "a<b"]).
Proof. split; vm_compute; reflexivity. Qed.

Lemma valid_coerce v : Utf8.valid v = true -> Utf8.coerce v = v.
Proof. unfold Utf8.valid. apply String.eqb_eq. Qed.

Lemma map_coerce_valid vs :
  Forall (fun v => Utf8.valid v = true) vs -> map Utf8.coerce vs = vs.
Proof.
  induction 1 as [|v vs Hv _ IH]; [reflexivity|].
  cbn [map]. now rewrite (valid_coerce v Hv), IH.
Qed.

Section RoundTrip.

Variable json_Unmarshal : string -> option cacheFile.
Variable json_Marshal : cacheFile -> option string.

(** the cache file after a save in which no call fails *)
Lemma save_writes_file (g : Generator) (fs : FS) (saved : Time.t) (io : save_io) data :
  versions g <> [] ->
  json_Marshal (mkCacheFile saved (versions g)) = Some data ->
  createTempErr io = false -> writeErr io = false ->
  closeErr io = false -> renameErr io = false ->
  tmpName io <> diskCachePath g ->
  saveToDiskCache json_Marshal g fs saved io !! diskCachePath g = Some data /\
  saveToDiskCache json_Marshal g fs saved io !! tmpName io = None.
Proof.
  intros Hne Hm Hc Hw Hcl Hr Htmp. unfold saveToDiskCache.
  destruct (versions g) as [|v vs] eqn:Hv; [congruence|].
  cbn [length Nat.eqb]. rewrite Hm, Hc, Hw, Hcl, Hr. split.
  - rewrite lookup_delete_ne by exact Htmp. apply lookup_insert_eq.
  - apply lookup_delete_eq.
Qed.

(** what a load finds after a save: the saved list, each string as JSON
    carries it *)
Lemma save_then_load (g loader : Generator) (fs : FS) (io : save_io)
    (saved loaded : Time.t) data :
  versions g <> [] ->
  json_Marshal (mkCacheFile saved (versions g)) = Some data ->
  json_Unmarshal data = Some (json_image (mkCacheFile saved (versions g))) ->
  createTempErr io = false -> writeErr io = false ->
  closeErr io = false -> renameErr io = false ->
  tmpName io <> diskCachePath g ->
  diskCachePath loader = diskCachePath g ->
  Since loaded saved <= diskCacheTTL loader ->
  loadFromDiskCache json_Unmarshal loader
    (saveToDiskCache json_Marshal g fs saved io) false loaded
  = (set_versions loader (map Utf8.coerce (versions g)), true).
Proof.
  intros Hne Hm Hu Hc Hw Hcl Hr Htmp Hpath Httl.
  destruct (save_writes_file g fs saved io data Hne Hm Hc Hw Hcl Hr Htmp) as [Hfile _].
  unfold loadFromDiskCache. rewrite Hpath, Hfile, Hu.
  cbn [json_image Timestamp Versions].
  apply Z.ltb_ge in Httl. rewrite Httl.
  destruct (versions g) as [|v vs]; [congruence|]. reflexivity.
Qed.

(** C7, as the code has it: a save in which no call fails, followed by a
    load of the same path within the TTL, answers [true] and installs the
    saved list, in order, provided every version is valid UTF-8 (JSON
    carries no other string unchanged).  The hypotheses on the codec say
    that the record encodes and that its text decodes to the record as JSON
    carries it. *)
Theorem cache_round_trip (g loader : Generator) (fs : FS) (io : save_io)
    (saved loaded : Time.t) (data : string) :
  versions g <> [] ->
  Forall (fun v => Utf8.valid v = true) (versions g) ->
  json_Marshal (mkCacheFile saved (versions g)) = Some data ->
  json_Unmarshal data = Some (json_image (mkCacheFile saved (versions g))) ->
  createTempErr io = false -> writeErr io = false ->
  closeErr io = false -> renameErr io = false ->
  tmpName io <> diskCachePath g ->
  diskCachePath loader = diskCachePath g ->
  Since loaded saved <= diskCacheTTL loader ->
  loadFromDiskCache json_Unmarshal loader
    (saveToDiskCache json_Marshal g fs saved io) false loaded
  = (set_versions loader (versions g), true) /\
  GetVersions (fst (loadFromDiskCache json_Unmarshal loader
                      (saveToDiskCache json_Marshal g fs saved io) false loaded))
  = versions g.
Proof.
  intros Hne Hvalid Hm Hu Hc Hw Hcl Hr Htmp Hpath Httl.
  rewrite (save_then_load g loader fs io saved loaded data) by assumption.
  rewrite (map_coerce_valid _ Hvalid). split; reflexivity.
Qed.

End RoundTrip.

Lemma cache_round_trip_witness :
  loadFromDiskCache JsonModel.Unmarshal demo_generator
    (saveToDiskCache JsonModel.Marshal demo_generator ∅ (demo_now 0) demo_io)
    false (demo_now 5)
  = (set_versions demo_generator (versions demo_generator), true) /\
  GetVersions (fst (loadFromDiskCache JsonModel.Unmarshal demo_generator
                      (saveToDiskCache JsonModel.Marshal demo_generator ∅ (demo_now 0) demo_io)
                      false (demo_now 5)))
  = versions demo_generator.
Proof.
  refine (cache_round_trip JsonModel.Unmarshal JsonModel.Marshal
            demo_generator demo_generator ∅ demo_io (demo_now 0) (demo_now 5)
            (match JsonModel.Marshal (mkCacheFile (demo_now 0) (versions demo_generator)) with
             | Some d => d
             | None => ""
             end) _ _ _ _ _ _ _ _ _ _ _).
  - discriminate.
  - repeat constructor.
  - vm_compute. reflexivity.
  - vm_compute. reflexivity.
  - reflexivity.
  - reflexivity.
  - reflexivity.
  - reflexivity.
  - discriminate.
  - reflexivity.
  - vm_compute. discriminate.
Defined.

(** C7 as stated fails on a version that is not valid UTF-8: the byte 255
    is saved as the escape of U+FFFD and comes back as the three bytes of
    U+FFFD. *)
Lemma cache_round_trip_invalid_utf8 :
  let g := mkGenerator [String "255"%char EmptyString] "/tmp/go_ua_versions.json"
             (3600 * Time.Second) in
  let fs := saveToDiskCache JsonModel.Marshal g ∅ (demo_now 0) demo_io in
  fs !! "/tmp/go_ua_versions.json"
    = Some ("{" ++ dq ++ "timestamp" ++ dq ++ ":" ++ dq ++ "2026-10-31T12:00:00Z" ++ dq ++ ","
            ++ dq ++ "versions" ++ dq ++ ":[" ++ dq ++ JsonModel.bs ++ "ufffd" ++ dq ++ "]}") /\
  loadFromDiskCache JsonModel.Unmarshal g fs false (demo_now 5)
    = (set_versions g [Utf8.replacement], true) /\
  [Utf8.replacement] <> versions g.
Proof.
  cbv zeta. split; [|split].
  - vm_compute. reflexivity.
  - vm_compute. reflexivity.
  - discriminate.
Qed.

Example demo_page_matches :
  map (fun m => tl m) (MsModel.FindAllStringSubmatch demo_page)
  = [["microsoft-edge-stable_139.0.3405.86-1_amd64.deb"; "07-Aug-2025"; "20:31"];
     ["microsoft-edge-stable_140.0.3485.54-1_amd64.deb"; "05-Sep-2025"; "01:12"];
     ["microsoft-edge-stable_140.0.3485.54-1_amd64.deb"; "04-Sep-2025"; "9:05"];
     ["broken.deb"; "31-Feb-2025"; "10:00"]].
Proof. vm_compute. reflexivity. Qed.

Example demo_page_versions :
  fetchMicrosoftVersions MsModel.FindAllStringSubmatch MsModel.time_Parse
    (@MsModel.sort_Slice msEdgeRelease) (HttpResponse 200 (Some demo_page) false)
  = (["140.0.3485.54"; "139.0.3405.86"], None).
Proof. vm_compute. reflexivity. Qed.

(* ===================================================================== *)
(** * The directory-scrape fetcher *)
(* ===================================================================== *)

Lemma prefix_append (p s : string) : String.prefix p (p ++ s) = true.
Proof.
  induction p as [|c p IH].
  - destruct s; reflexivity.
  - change (String.prefix (String c p) (String c (p ++ s)) = true).
    cbn [String.prefix]. destruct (Ascii.ascii_dec c c); [exact IH | congruence].
Qed.

Lemma trim_prefix_append (p s : string) : Str.trim_prefix (p ++ s) p = s.
Proof.
  unfold Str.trim_prefix. rewrite prefix_append, length_append.
  replace (String.length p + String.length s - String.length p)%nat
    with (String.length s) by lia.
  apply substring_append_r.
Qed.

Lemma has_suffix_append (s suf : string) : Str.has_suffix suf (s ++ suf) = true.
Proof.
  induction s as [|c s IH].
  - change ("" ++ suf) with suf.
    destruct suf; cbn [Str.has_suffix]; now rewrite String.eqb_refl.
  - change (String c s ++ suf) with (String c (s ++ suf)).
    cbn [Str.has_suffix]. rewrite IH. now destruct (String.eqb suf _).
Qed.

Lemma trim_suffix_append (s suf : string) : Str.trim_suffix (s ++ suf) suf = s.
Proof.
  unfold Str.trim_suffix. rewrite has_suffix_append, length_append.
  replace (String.length s + String.length suf - String.length suf)%nat
    with (String.length s) by lia.
  apply substring_append_l.
Qed.

Lemma append_assoc (a b c : string) : (a ++ b) ++ c = a ++ b ++ c.
Proof.
  induction a as [|x a IH]; [reflexivity|].
  change (String x ((a ++ b) ++ c) = String x (a ++ b ++ c)). now rewrite IH.
Qed.

(** the version inside a package file name *)
Lemma version_of_filename_package v :
  version_of_filename ("microsoft-edge-stable_" ++ v ++ "-1_amd64.deb") = v.
Proof.
  unfold version_of_filename. rewrite trim_prefix_append.
  change "-1_amd64.deb" with ("-1" ++ "_amd64.deb").
  rewrite <- append_assoc, trim_suffix_append. apply trim_suffix_append.
Qed.

Lemma sublist_StronglySorted {A} (R : A -> A -> Prop) (l1 l2 : list A) :
  sublist l1 l2 -> StronglySorted R l2 -> StronglySorted R l1.
Proof.
  induction 1 as [|x l1 l2 Hs IH|x l1 l2 Hs IH]; intros Hsorted.
  - constructor.
  - apply StronglySorted_inv in Hsorted as [Hl2 Hx]. constructor; [auto|].
    rewrite Forall_forall in *. intros y Hy. apply Hx.
    eapply elem_of_sublist; eauto.
  - apply StronglySorted_inv in Hsorted as [Hl2 _]. auto.
Qed.

Lemma StronglySorted_weaken {A} (R R' : A -> A -> Prop) (l : list A) :
  (forall a b, R a b -> R' a b) -> StronglySorted R l -> StronglySorted R' l.
Proof.
  intros Himp. induction 1 as [|x l Hl IH Hx]; constructor; [exact IH|].
  eapply Forall_impl; [exact Hx | intros y; apply Himp].
Qed.

Lemma sublist_In {A} (l1 l2 : list A) x : sublist l1 l2 -> In x l1 -> In x l2.
Proof. rewrite <- !list_elem_of_In. intros Hs Hx. eapply elem_of_sublist; eauto. Qed.

(** the loop that removes duplicates: what it adds to [versions] are the
    versions of a subsequence of [releases], none seen before, and it stops
    at [limit] *)
Lemma dedup_loop_spec (releases : list msEdgeRelease) (limit : nat)
    (versions : list string) (unique : gset string) :
  (forall v, v ∈ unique <-> In v versions) ->
  NoDup versions ->
  (length versions < limit)%nat ->
  exists rs,
    sublist rs releases /\
    dedup_loop releases limit versions unique = (versions ++ map Version rs)%list /\
    NoDup (versions ++ map Version rs)%list /\
    (length (versions ++ map Version rs)%list <= limit)%nat /\
    (releases <> [] -> rs <> []  \/ versions <> []).
Proof.
  revert versions unique.
  induction releases as [|release rest IH]; intros versions unique Hset Hnd Hlen.
  - exists []. cbn [dedup_loop map]. rewrite app_nil_r.
    repeat split; try assumption; try constructor; try lia. congruence.
  - cbn [dedup_loop]. destruct (decide (Version release ∈ unique)) as [Hin|Hnin].
    + assert (Hlt : (limit <=? length versions)%nat = false) by (apply Nat.leb_gt; lia).
      rewrite Hlt.
      destruct (IH versions unique Hset Hnd Hlen) as (rs & Hsub & Heq & Hnd' & Hlen' & _).
      exists rs. repeat split; try assumption.
      * now apply sublist_cons.
      * intros _. right. apply Hset in Hin. intros ->. contradiction.
    + assert (Hnew : ~ In (Version release) versions) by (rewrite <- Hset; exact Hnin).
      assert (Hnd1 : NoDup (versions ++ [Version release])%list).
      { apply NoDup_app. repeat split; try assumption.
        - intros x Hx Hx'. apply list_elem_of_In in Hx.
          apply list_elem_of_singleton in Hx'. subst. contradiction.
        - apply NoDup_singleton. }
      assert (Hset1 : forall v, v ∈ ({[Version release]} ∪ unique : gset string)
                                <-> In v (versions ++ [Version release])%list).
      { intros v. rewrite elem_of_union, elem_of_singleton, Hset, in_app_iff.
        cbn [In]. intuition congruence. }
      destruct (limit <=? length (versions ++ [Version release])%list)%nat eqn:Hstop.
      * exists [release]. cbn [map]. repeat split; try assumption.
        -- apply sublist_skip, sublist_nil_l.
        -- rewrite length_app in *. cbn [length] in *. lia.
        -- intros _. left. discriminate.
      * apply Nat.leb_gt in Hstop.
        destruct (IH _ _ Hset1 Hnd1 Hstop) as (rs & Hsub & Heq & Hnd' & Hlen' & _).
        exists (release :: rs). cbn [map].
        rewrite <- app_assoc in Heq, Hnd', Hlen'. cbn [app] in Heq, Hnd', Hlen'.
        repeat split; try assumption.
        -- now apply sublist_skip.
        -- intros _. left. discriminate.
Qed.

Lemma date_time_text d t : Fmt.Sprintf "%s %s" [Fmt.AStr d; Fmt.AStr t] = d ++ " " ++ t.
Proof. cbn [Fmt.Sprintf Fmt.verb_s]. now rewrite append_nil_r. Qed.

Section MicrosoftFacts.

Variable FindAllStringSubmatch : string -> list (list string).
Variable time_Parse : string -> string -> option Time.t.
Variable sort_Slice :
  (msEdgeRelease -> msEdgeRelease -> bool) -> list msEdgeRelease -> list msEdgeRelease.

Lemma parse_matches_from (matches : list (list string)) (acc : list msEdgeRelease) r :
  In r (parse_matches time_Parse matches acc) ->
  In r acc \/ from_match time_Parse matches r.
Proof.
  revert acc. induction matches as [|m rest IH]; intros acc Hin.
  - left. exact Hin.
  - assert (Hskip : In r (parse_matches time_Parse rest acc) ->
                    In r acc \/ from_match time_Parse (m :: rest) r).
    { intros H. destruct (IH _ H) as [H'|(w & f & d & t & tl & Hm & Hp & Hv)]; [now left|].
      right. exists w, f, d, t, tl. split; [now right | auto]. }
    cbn [parse_matches] in Hin.
    destruct m as [|whole [|filename [|dateStr [|timeStr tl]]]]; try (now apply Hskip).
    rewrite date_time_text in Hin.
    destruct (time_Parse msLayout (dateStr ++ " " ++ timeStr)) as [parsed|] eqn:Hp;
      [|now apply Hskip].
    destruct (IH _ Hin) as [H'|(w & f & d & t & tl' & Hm & Hp' & Hv)].
    + apply in_app_iff in H' as [H'|[<-|[]]]; [now left|].
      right. exists whole, filename, dateStr, timeStr, tl. split; [now left | auto].
    + right. exists w, f, d, t, tl'. split; [now right | auto].
Qed.

Lemma parse_matches_none (matches : list (list string)) (acc : list msEdgeRelease) :
  none_parses time_Parse matches -> parse_matches time_Parse matches acc = acc.
Proof.
  revert acc. induction matches as [|m rest IH]; intros acc Hnone; [reflexivity|].
  assert (Hrest : none_parses time_Parse rest).
  { intros w f d t tl Hin. apply (Hnone w f d t tl). now right. }
  cbn [parse_matches].
  destruct m as [|whole [|filename [|dateStr [|timeStr tl]]]]; try (now apply IH).
  rewrite date_time_text, (Hnone whole filename dateStr timeStr tl) by now left.
  now apply IH.
Qed.

Hypothesis sort_perm : forall l, Permutation l (sort_Slice release_less l).
Hypothesis sort_sorted :
  forall l, StronglySorted (fun a b => release_less b a = false) (sort_Slice release_less l).

Lemma versions_of_body_ok body vs :
  versions_of_body FindAllStringSubmatch time_Parse sort_Slice body = (vs, None) ->
  NoDup vs /\ (length vs <= 20)%nat /\ vs <> [] /\
  exists rs,
    vs = map Version rs /\
    StronglySorted (fun a b => Time.unixNano (Date b) <= Time.unixNano (Date a)) rs /\
    Forall (from_match time_Parse (FindAllStringSubmatch body)) rs.
Proof.
  unfold versions_of_body.
  destruct (length (FindAllStringSubmatch body) =? 0)%nat; [discriminate|].
  set (releases := parse_matches time_Parse (FindAllStringSubmatch body) []).
  destruct (length releases =? 0)%nat eqn:Hlen; [discriminate|].
  apply Nat.eqb_neq in Hlen.
  set (sorted := sort_Slice release_less releases).
  set (limit := Nat.min (Z.to_nat versionsToKeepFromMS) (length sorted)).
  intros [= <-].
  assert (Hperm : Permutation releases sorted) by apply sort_perm.
  assert (Hsl : length sorted = length releases)
    by (symmetry; now apply Permutation_length).
  assert (Hlimit : (0 < limit <= 20)%nat).
  { subst limit. change (Z.to_nat versionsToKeepFromMS) with 20%nat. lia. }
  destruct (dedup_loop_spec sorted limit [] ∅)
    as (rs & Hsub & Heq & Hnd & Hle & Hne).
  { intros v. rewrite elem_of_empty. cbn [In]. tauto. }
  { constructor. }
  { cbn [length]. lia. }
  cbn [app] in Heq, Hnd, Hle. rewrite Heq.
  split; [exact Hnd|]. split; [lia|].
  split.
  { destruct Hne as [Hne|Hne]; [| |congruence].
    - intros ->. cbn [length] in Hsl. lia.
    - destruct rs; [congruence | discriminate]. }
  exists rs. split; [reflexivity|]. split.
  - apply (sublist_StronglySorted _ rs sorted Hsub).
    eapply StronglySorted_weaken; [|apply sort_sorted].
    intros a b Hab. unfold release_less, Time.After in Hab.
    apply Z.ltb_ge in Hab. exact Hab.
  - apply Forall_forall. intros r Hr. apply list_elem_of_In in Hr.
    apply (sublist_In _ _ _ Hsub) in Hr.
    apply (Permutation_in _ (Permutation_sym Hperm)) in Hr.
    destruct (parse_matches_from _ _ _ Hr) as [[]|H]. exact H.
Qed.

End MicrosoftFacts.

Section MicrosoftClaim.

Variable FindAllStringSubmatch : string -> list (list string).
Variable time_Parse : string -> string -> option Time.t.
Variable sort_Slice :
  (msEdgeRelease -> msEdgeRelease -> bool) -> list msEdgeRelease -> list msEdgeRelease.

Lemma errors_Join_None err c : errors_Join err c = None -> err = None /\ c = false.
Proof. destruct err, c; cbn; intros H; try discriminate; auto. Qed.

(** C8: given that [sort.Slice] returns its argument permuted and in the
    order of the comparison, a successful [fetchMicrosoftVersions] answered
    a body with status 200 and returns a list without duplicates, of at
    least one and at most 20 versions, which are the versions of releases in
    descending order of date, each read from a match of the pattern: its
    date parsed from the two date groups, its version the file name without
    the prefix [microsoft-edge-stable_] and the suffixes [_amd64.deb] and
    [-1].  With no match, and with matches none of which parses to a date,
    the fetcher returns an error. *)
Theorem fetchMicrosoftVersions_result
    (sort_perm : forall l, Permutation l (sort_Slice release_less l))
    (sort_sorted : forall l,
        StronglySorted (fun a b => release_less b a = false) (sort_Slice release_less l))
    (resp : http_outcome) :
  let fetch := fetchMicrosoftVersions FindAllStringSubmatch time_Parse sort_Slice in
  (forall vs, fetch resp = (vs, None) ->
     exists body,
       resp = HttpResponse StatusOK (Some body) false /\
       NoDup vs /\ (1 <= length vs <= 20)%nat /\
       exists rs,
         vs = map Version rs /\
         StronglySorted (fun a b => Time.unixNano (Date b) <= Time.unixNano (Date a)) rs /\
         Forall (from_match time_Parse (FindAllStringSubmatch body)) rs) /\
  (forall v, version_of_filename ("microsoft-edge-stable_" ++ v ++ "-1_amd64.deb") = v) /\
  (forall status body c,
     resp = HttpResponse status (Some body) c ->
     FindAllStringSubmatch body = [] -> snd (fetch resp) <> None) /\
  (forall status body c,
     resp = HttpResponse status (Some body) c ->
     none_parses time_Parse (FindAllStringSubmatch body) -> snd (fetch resp) <> None).
Proof.
  cbv zeta. split; [|split; [|split]].
  - intros vs Hrun. unfold fetchMicrosoftVersions in Hrun.
    destruct resp as [|status body closeFails]; [discriminate|].
    assert (Herr := f_equal snd Hrun). assert (Hvs := f_equal fst Hrun).
    clear Hrun. cbn [fst snd] in Herr, Hvs.
    destruct (negb (status =? StatusOK)) eqn:Hst.
    { cbn [fst snd] in Herr. apply errors_Join_None in Herr as [? _]. discriminate. }
    apply negb_false_iff, Z.eqb_eq in Hst. subst status.
    destruct body as [body|].
    2:{ cbn [fst snd] in Herr. apply errors_Join_None in Herr as [? _]. discriminate. }
    destruct (versions_of_body FindAllStringSubmatch time_Parse sort_Slice body)
      as [vs' err] eqn:Hbody.
    cbn [fst snd] in Herr, Hvs. subst vs'.
    apply errors_Join_None in Herr as [-> ->].
    exists body. split; [reflexivity|].
    destruct (versions_of_body_ok _ _ _ sort_perm sort_sorted body vs Hbody)
      as (Hnd & Hle & Hne & rs & Hvs & Hsorted & Hfrom).
    split; [exact Hnd|]. split.
    { split; [|exact Hle]. destruct vs; [congruence | cbn [length]; lia]. }
    exists rs. auto.
  - apply version_of_filename_package.
  - intros status body c -> Hnone. unfold fetchMicrosoftVersions, versions_of_body.
    rewrite Hnone. cbn [length Nat.eqb].
    destruct (negb (status =? StatusOK)), c; discriminate.
  - intros status body c -> Hnone. unfold fetchMicrosoftVersions, versions_of_body.
    rewrite (parse_matches_none time_Parse _ [] Hnone). cbn [length Nat.eqb].
    destruct (negb (status =? StatusOK)), (length (FindAllStringSubmatch body) =? 0)%nat, c;
      discriminate.
Qed.

End MicrosoftClaim.

(** the stand-in for [sort.Slice] keeps the contract *)
Lemma insert_by_perm (x : msEdgeRelease) l :
  Permutation (x :: l) (MsModel.insert_by release_less x l).
Proof.
  induction l as [|y r IH]; [reflexivity|].
  cbn [MsModel.insert_by]. destruct (release_less y x); [|reflexivity].
  rewrite perm_swap. now apply perm_skip.
Qed.

Lemma model_sort_perm (l : list msEdgeRelease) :
  Permutation l (MsModel.sort_Slice release_less l).
Proof.
  induction l as [|x r IH]; [reflexivity|].
  cbn [MsModel.sort_Slice]. rewrite <- insert_by_perm. now apply perm_skip.
Qed.

Lemma insert_by_sorted (x : msEdgeRelease) l :
  StronglySorted (fun a b => release_less b a = false) l ->
  StronglySorted (fun a b => release_less b a = false) (MsModel.insert_by release_less x l).
Proof.
  induction 1 as [|y r Hr IH Hy]; cbn [MsModel.insert_by].
  - repeat constructor.
  - destruct (release_less y x) eqn:Hyx.
    + constructor; [exact IH|].
      apply Forall_forall. intros z Hz. apply list_elem_of_In in Hz.
      apply (Permutation_in _ (Permutation_sym (insert_by_perm x r))) in Hz.
      destruct Hz as [<-|Hz].
      * unfold release_less, Time.After in *. apply Z.ltb_lt in Hyx. apply Z.ltb_ge. lia.
      * rewrite Forall_forall in Hy. apply Hy. now apply list_elem_of_In.
    + constructor; [now constructor|].
      constructor; [exact Hyx|].
      eapply Forall_impl; [exact Hy|]. intros z Hz. cbv beta in Hz.
      unfold release_less, Time.After in *.
      apply Z.ltb_ge in Hyx, Hz. apply Z.ltb_ge. lia.
Qed.

Lemma model_sort_sorted (l : list msEdgeRelease) :
  StronglySorted (fun a b => release_less b a = false) (MsModel.sort_Slice release_less l).
Proof.
  induction l as [|x r IH]; [constructor|].
  cbn [MsModel.sort_Slice]. now apply insert_by_sorted.
Qed.

Lemma fetchMicrosoftVersions_result_witness :
  exists body,
    HttpResponse 200 (Some demo_page) false = HttpResponse StatusOK (Some body) false /\
    NoDup ["140.0.3485.54"; "139.0.3405.86"] /\
    (1 <= length ["140.0.3485.54"; "139.0.3405.86"] <= 20)%nat /\
    exists rs,
      ["140.0.3485.54"; "139.0.3405.86"] = map Version rs /\
      StronglySorted (fun a b => Time.unixNano (Date b) <= Time.unixNano (Date a)) rs /\
      Forall (from_match MsModel.time_Parse (MsModel.FindAllStringSubmatch body)) rs.
Proof.
  refine (proj1 (fetchMicrosoftVersions_result MsModel.FindAllStringSubmatch
                   MsModel.time_Parse (@MsModel.sort_Slice msEdgeRelease)
                   model_sort_perm model_sort_sorted
                   (HttpResponse 200 (Some demo_page) false))
                ["140.0.3485.54"; "139.0.3405.86"] _).
  vm_compute. reflexivity.
Defined.

(* ===================================================================== *)
(** * The claims on the approximator, and closed instances *)
(* ===================================================================== *)

Lemma approximateVersionForDate_valid (d : Time.t) :
  Time.unixNano t0 <= Time.unixNano d ->
  valid_version (approximateVersionForDate d) = true.
Proof.
  intros Hd. destruct (components_nonneg d Hd) as (HM & HB & Hp).
  rewrite approximateVersionForDate_eq. unfold valid_version.
  rewrite split_dot_four; try apply itoa_no_dot; try reflexivity.
  rewrite !itoa_nonneg_is_uint by assumption. reflexivity.
Qed.

(** C2, as the code has it: for every date [approximateVersionForDate]
    returns four decimal integers joined by dots, the second one [0], each
    printed with a minus sign when it is negative; the three computed
    integers are small, so that no conversion from float64 to int leaves the
    range of int; equal dates give equal texts; and for every date from the
    anchor 2025-05-14 00:00 UTC on, the four integers are non-negative, so
    that the text is a valid version. *)
Theorem approximateVersionForDate_total (d : Time.t) :
  signed_version (approximateVersionForDate d) = true /\
  (exists M B p : Z,
     approximateVersionForDate d
     = Str.itoa M ++ "." ++ "0" ++ "." ++ Str.itoa B ++ "." ++ Str.itoa p /\
     Z.abs M <= 3580 /\ Z.abs B <= 200335 /\ Z.abs p <= 106815) /\
  (forall d' : Time.t,
     Time.unixNano d' = Time.unixNano d ->
     approximateVersionForDate d' = approximateVersionForDate d) /\
  (Time.unixNano t0 <= Time.unixNano d ->
   valid_version (approximateVersionForDate d) = true).
Proof.
  split; [apply approximateVersionForDate_signed|]. split; [|split].
  - eexists _, _, _. split; [apply approximateVersionForDate_eq|].
    apply components_in_range.
  - intros [n'] Hd. destruct d as [n]. cbn [Time.unixNano] in Hd. now subst.
  - apply approximateVersionForDate_valid.
Qed.

Lemma approximateVersionForDate_total_witness :
  valid_version (approximateVersionForDate (Time.Date 2026 10 31 12 0 0 0)) = true.
Proof.
  apply (proj2 (proj2 (proj2
           (approximateVersionForDate_total (Time.Date 2026 10 31 12 0 0 0))))).
  vm_compute. discriminate.
Defined.

(** C2 as stated fails before the anchor date: on 1 January 2000 the three
    computed components are negative, so the text is not made of four
    non-negative integers. *)
Lemma approximateVersionForDate_year_2000 :
  approximateVersionForDate (Time.Date 2000 1 1 0 0 0 0) = "-162.0.-8438.-8091" /\
  valid_version (approximateVersionForDate (Time.Date 2000 1 1 0 0 0 0)) = false.
Proof. split; vm_compute; reflexivity. Qed.

(** C3 as stated fails in the library: the crawler type 7 is outside the
    enumeration and [GetCrawlerHeaders] answers it with the Google map. *)
Lemma crawler_type_7_gets_google_headers :
  GetCrawlerHeaders demo_generator (demo_now 0) 7
    = GetCrawlerHeaders demo_generator (demo_now 0) GoogleBot /\
  GetCrawlerHeaders demo_generator (demo_now 0) 7 !! "user-agent"
    = Some "Mozilla/5.0 AppleWebKit/537.36 (KHTML, like Gecko; compatible; Googlebot/2.1; +http://www.google.com/bot.html) Chrome/140.0.7339.81 Safari/537.36" /\
  GetCrawlerHeaders demo_generator (demo_now 0) 7 !! "from" = Some "googlebot(at)google.com".
Proof.
  split; [reflexivity|]. rewrite GetCrawlerHeaders_latest, crawler_user_agent, crawler_from.
  split; reflexivity.
Qed.

Lemma Get_empty_versions_witness :
  Get AddDate_UTC (mkGenerator [] "" 0) demo_now demo_rand
  = Some ("Mozilla/5.0 (Windows NT 10.0; Win64; x64) AppleWebKit/537.36 (KHTML, like Gecko) Chrome/"
          ++ "[153.0.8001.534 153.0.7989.528 152.0.7977.521 152.0.7966.515 152.0.7954.509]"
          ++ " Safari/537.36", demo_rand).
Proof.
  exact (proj1 (Get_empty_versions AddDate_UTC (mkGenerator [] "" 0) demo_now demo_rand eq_refl)).
Defined.

Lemma updateVersions_never_fails_witness :
  let res := updateVersions AddDate_UTC demo_generator recvAllNetworkDone demo_now in
  snd res = None /\
  (versions (fst res) = approximateVersions AddDate_UTC demo_now \/
   FetchErr = FetchOk (versions (fst res)) \/
   FetchErr = FetchOk (versions (fst res))) /\
  (FetchErr = FetchErr -> FetchErr = FetchErr ->
   versions (fst res) = approximateVersions AddDate_UTC demo_now) /\
  (res = updateVersions AddDate_UTC demo_generator recvAllNetworkDone demo_now \/
   res = updateVersions AddDate_UTC demo_generator recvCtxDone demo_now ->
   versions (fst res) = approximateVersions AddDate_UTC demo_now) /\
  length (approximateVersions AddDate_UTC demo_now) = 5%nat /\
  (forall i, (i < 5)%nat ->
     nth_error (approximateVersions AddDate_UTC demo_now) i =
     Some (approximateVersionForDate (AddDate_UTC (demo_now i) 0 0 (- (7 * Z.of_nat i))))).
Proof.
  cbv zeta.
  apply (updateVersions_never_fails AddDate_UTC FetchErr FetchErr demo_generator demo_now).
  apply (run_select AddDate_UTC FetchErr FetchErr demo_generator demo_now
           (mkRace false false [] true false) recvAllNetworkDone).
  - apply (reach_step _ _ (mkRace false false [] false false)).
    + apply (reach_step _ _ (mkRace false true [] false false)).
      * apply (reach_step _ _ race_start); [apply reach_start|].
        apply (step_google _ _ race_start []); [reflexivity | now apply end_error].
      * apply (step_microsoft _ _ (mkRace false true [] false false) []);
          [reflexivity | now apply end_error].
    + apply (step_wait _ _ (mkRace false false [] false false)); reflexivity.
  - apply ready_all. reflexivity.
Defined.

Lemma crawler_type_policy_witness :
  GetCrawlerHeaders demo_generator (demo_now 0) 7
  = GetCrawlerHeaders demo_generator (demo_now 0) GoogleBot.
Proof.
  apply (proj1 (proj2 (crawler_type_policy demo_generator (demo_now 0) 7
                         (fun _ => Some "{}") (Some demo_generator) 64))).
  right. reflexivity.
Defined.

Lemma loadFromDiskCache_outcomes_witness :
  loadFromDiskCache JsonModel.Unmarshal (set_versions demo_generator ["120.0.6099.71"])
    (saveToDiskCache JsonModel.Marshal demo_generator ∅ (demo_now 0) demo_io) false
    (Time.Date 2026 10 31 14 0 0 0)
  = (set_versions demo_generator ["120.0.6099.71"], false) /\
  loadFromDiskCache JsonModel.Unmarshal (set_versions demo_generator ["120.0.6099.71"])
    (saveToDiskCache JsonModel.Marshal demo_generator ∅ (demo_now 0) demo_io) false
    (demo_now 5)
  = (demo_generator, true).
Proof.
  pose (stale := set_versions demo_generator ["120.0.6099.71"]).
  pose (fs := saveToDiskCache JsonModel.Marshal demo_generator ∅ (demo_now 0) demo_io).
  pose (data := match JsonModel.Marshal (mkCacheFile (demo_now 0) (versions demo_generator)) with
                | Some data => data
                | None => ""
                end).
  pose (cache := mkCacheFile (demo_now 0) (versions demo_generator)).
  split.
  - refine (proj1 (proj2 (proj2 (proj2 (proj2
              (loadFromDiskCache_outcomes JsonModel.Unmarshal stale fs
                 false (Time.Date 2026 10 31 14 0 0 0))))))
              data cache _ _ _).
    + vm_compute. reflexivity.
    + vm_compute. reflexivity.
    + vm_compute. reflexivity.
  - refine (proj1 (proj1 (proj2 (proj2 (proj2 (proj2 (proj2 (proj2
              (loadFromDiskCache_outcomes JsonModel.Unmarshal stale fs
                 false (demo_now 5))))))))
              data cache eq_refl _ _ _ _)).
    + vm_compute. reflexivity.
    + vm_compute. reflexivity.
    + vm_compute. discriminate.
    + discriminate.
Defined.
